(** * ZingTouch state coordinator (src/core/state.js)

    A shallow embedding of the [state] singleton of ZingTouch: the binding
    registry ([addBinding], [retrieveBindings]), the contact tracker
    ([updateInputs], [resetInputs], [numActiveInputs]) and the private
    function [getGestureType].

    Conventions of the embedding
    - the singleton object [state] is a record that is threaded through
      every operation; a method returns its result together with the new
      record;
    - JavaScript objects that are shared and mutated (Gesture instances) are
      addressed by a reference; the mutable [id] slot of every Gesture
      lives in a store inside the state record, so aliasing is visible;
    - the JavaScript array [state.inputs] is only ever replaced by [[]] or
      extended by [push], hence it is dense and is a [list]; the read
      [inputs[k]] is the list lookup at position [k];
    - an exception is an explicit outcome ([Throw]);
    - [numGestures] is a natural number: the counter is a double in
      JavaScript and is exact for every count below 2^53. *)

From stdpp Require Import gmap strings list fin_maps.
From Stdlib Require Import ZArith Lia Sorting.Sorted.

Local Open Scope string_scope.

(** ** JavaScript values reaching [addBinding] *)

(** A reference to an object whose prototype chain contains
    [Gesture.prototype]. *)
Definition gref := nat.

(** The values the [gesture] parameter can hold, split the way the code
    inspects it: [typeof gesture === 'string'], [gesture instanceof Gesture],
    [typeof gesture === 'undefined']. *)
Inductive JsVal : Type :=
| JString (s : string)
| JGesture (g : gref)
| JObject (o : nat)          (* any other object, functions included *)
| JNumber (n : Z)
| JBool (b : bool)
| JNull
| JUndefined.

Definition typeof_is_string (v : JsVal) : bool :=
  match v with JString _ => true | _ => false end.

Definition typeof_is_undefined (v : JsVal) : bool :=
  match v with JUndefined => true | _ => false end.

Definition instanceof_Gesture (v : JsVal) : bool :=
  match v with JGesture _ => true | _ => false end.

(** ** The registered gestures *)

(** The six instances created by the object literal [registeredGestures]. *)
Definition ref_expand : gref := 0.
Definition ref_pan : gref := 1.
Definition ref_pinch : gref := 2.
Definition ref_rotate : gref := 3.
Definition ref_swipe : gref := 4.
Definition ref_tap : gref := 5.

(** Own properties of the literal, in source order. *)
Definition registeredGestures_own : list (string * gref) :=
  [ ("expand", ref_expand); ("pan", ref_pan); ("pinch", ref_pinch);
    ("rotate", ref_rotate); ("swipe", ref_swipe); ("tap", ref_tap) ].

(** Properties every object literal inherits from [Object.prototype]; the
    number stands for the inherited function (or, for [__proto__], for
    [Object.prototype] itself). *)
Definition object_prototype : list (string * nat) :=
  [ ("constructor", 0); ("hasOwnProperty", 1); ("isPrototypeOf", 2);
    ("propertyIsEnumerable", 3); ("toLocaleString", 4); ("toString", 5);
    ("valueOf", 6); ("__proto__", 7); ("__defineGetter__", 8);
    ("__defineSetter__", 9); ("__lookupGetter__", 10);
    ("__lookupSetter__", 11) ].

Fixpoint assoc {A} (k : string) (l : list (string * A)) : option A :=
  match l with
  | [] => None
  | (k', v) :: l' => if String.eqb k k' then Some v else assoc k l'
  end.

(** [this.registeredGestures[name]]: own property first, then the prototype
    chain, [undefined] when neither has it. *)
Definition registeredGestures_get (name : string) : JsVal :=
  match assoc name registeredGestures_own with
  | Some g => JGesture g
  | None =>
      match assoc name object_prototype with
      | Some o => JObject o
      | None => JUndefined
      end
  end.

(** ** Bindings *)

Definition Element := nat.   (* identity of a DOM element *)
Definition Handler := nat.   (* identity of a callback *)

(** Modelled from the spec: the class [Binding] (core/classes/Binding.js is
    not among the sources); section 3 gives its five stored fields. *)
Record Binding : Type := mkBinding {
  b_element : Element;
  b_gesture : gref;
  b_handler : Handler;
  b_capture : bool;
  b_bindOnce : bool
}.

(** One call [element.addEventListener(channel, handler, capture)]; the
    channel is what [gesture.getId()] returned. *)
Record Listener : Type := mkListener {
  l_element : Element;
  l_channel : option nat;
  l_handler : Handler;
  l_capture : bool
}.

(** ** Canonical phases and raw events *)

(** Modelled from the spec: the values [util.normalizeEvent] returns
    (core/util.js is not among the sources); section 4.1 lists the four
    canonical phases and an unrecognized sentinel. *)
Inductive Phase : Type := Start | Move | End | Cancel | Unrecognized.

Global Instance Phase_eq_dec : EqDecision Phase.
Proof. solve_decision. Defined.

Record Touch : Type := mkTouch {
  t_identifier : Z;
  t_position : Z * Z
}.

(** The raw event of section 6: [touches], [targetTouches] and
    [changedTouches] may be absent. *)
Record Event : Type := mkEvent {
  e_type : string;
  e_touches : option (list Touch);
  e_targetTouches : option (list Touch);
  e_changedTouches : option (list Touch)
}.

(** ** Contact records *)

(** Modelled from the spec: what a contact record keeps of one event (the
    classes behind [Input] are not among the sources); section 3 names the
    phase, the positional data are those of the raw event. *)
Record Snapshot : Type := mkSnapshot {
  s_type : Phase;
  s_event : Event;
  s_touch : option Z
}.

(** Modelled from the spec: the class [Input] (core/classes/Input.js is not
    among the sources). Section 3: an identifier, the current phase, and
    position/history owned by the record; section 4.2 (3): the record made
    without an identifier has the implicit identifier 0. *)
Record Input : Type := mkInput {
  identifier : Z;
  current : Snapshot;
  history : list Snapshot
}.

(** ** The state singleton *)

Record State : Type := mkState {
  inputs : list Input;
  bindings : list Binding;
  numGestures : nat;
  gestureIds : gmap gref nat;      (* the [id] slot of each Gesture object *)
  listeners : list Listener        (* listeners registered on elements *)
}.

Definition initialState : State :=
  {| inputs := []; bindings := []; numGestures := 0;
     gestureIds := ∅; listeners := [] |}.

Definition set_inputs (st : State) (l : list Input) : State :=
  {| inputs := l; bindings := bindings st; numGestures := numGestures st;
     gestureIds := gestureIds st; listeners := listeners st |}.

(** Modelled from the spec: [Gesture.getId] (gestures/Gesture.js is not among
    the sources); section 6: each gesture object exposes [getId()/setId(id)]
    over one numeric id, absent until it is first set. *)
Definition getId (st : State) (g : gref) : option nat := gestureIds st !! g.

(** Modelled from the spec: [Gesture.setId], the setter paired with [getId]
    (gestures/Gesture.js is not among the sources). *)
Definition setId (st : State) (g : gref) (n : nat) : State :=
  {| inputs := inputs st; bindings := bindings st;
     numGestures := numGestures st;
     gestureIds := <[g := n]> (gestureIds st); listeners := listeners st |}.

(** ** addBinding *)

(** What the function hands back: [null], the implicit [undefined] of a
    function that falls off its end, or the new Binding. *)
Inductive AddResult : Type :=
| RetNull
| RetUndefined
| RetBinding (b : Binding).

(** The tail of [addBinding], after the gesture argument was resolved. *)
Definition addBinding_finish (st : State) (element : Element) (gesture : JsVal)
    (handler : Handler) (capture bindOnce : bool) : AddResult * State :=
  match gesture with
  | JGesture g =>
      let binding := mkBinding element g handler capture bindOnce in
      (RetBinding binding,
       {| inputs := inputs st;
          bindings := bindings st ++ [binding];
          numGestures := numGestures st;
          gestureIds := gestureIds st;
          listeners :=
            listeners st ++ [mkListener element (getId st g) handler capture] |})
  | _ => (RetUndefined, st)
  end.

Definition addBinding (st : State) (element : Element) (gesture : JsVal)
    (handler : Handler) (capture bindOnce : bool) : AddResult * State :=
  match gesture with
  | JString name =>
      let gesture' := registeredGestures_get name in
      if typeof_is_undefined gesture' then (RetNull, st)
      else addBinding_finish st element gesture' handler capture bindOnce
  | JGesture g =>
      (* gesture.setId(this.numGestures++) *)
      let st1 :=
        {| inputs := inputs st; bindings := bindings st;
           numGestures := S (numGestures st);
           gestureIds := gestureIds st; listeners := listeners st |} in
      let st2 := setId st1 g (numGestures st) in
      addBinding_finish st2 element gesture handler capture bindOnce
  | _ => (RetNull, st)
  end.

(** [retrieveBindings]: the bindings of one element, in registration order. *)
Fixpoint retrieveBindings_loop (bs : list Binding) (element : Element)
    : list Binding :=
  match bs with
  | [] => []
  | b :: bs' =>
      if Nat.eqb (b_element b) element
      then b :: retrieveBindings_loop bs' element
      else retrieveBindings_loop bs' element
  end.

Definition retrieveBindings (st : State) (element : Element) : list Binding :=
  retrieveBindings_loop (bindings st) element.

(** ** The contact tracker *)

(** Outcome of a call: a returned value or a thrown exception. *)
Inductive JsError : Type := TypeError.

Inductive Completion (A : Type) : Type :=
| Normal (a : A)
| Throw (e : JsError).
Arguments Normal {A} a.
Arguments Throw {A} e.

(** [this.inputs[id]] for a numeric [id]: the element at that position of
    the array, [undefined] for a negative or too large one. *)
Definition inputs_at (l : list Input) (id : Z) : option Input :=
  if (0 <=? id)%Z then l !! Z.to_nat id else None.

Definition resetInputs (st : State) : State := set_inputs st [].

(** The counting loop of [numActiveInputs]. *)
Fixpoint countActive (l : list Input) (count : nat) : nat :=
  match l with
  | [] => count
  | i :: l' =>
      if decide (s_type (current i) ≠ End)
      then countActive l' (S count)
      else countActive l' count
  end.

Definition numActiveInputs (st : State) : nat := countActive (inputs st) 0.

Section Tracker.

(** [util.normalizeEvent] is imported from core/util.js, which is not among
    the sources: the tracker is parametric in it. *)
Variable normalizeEvent : string → Phase.

(** Modelled from the spec: the event data an [Input] stores, with the
    normalized phase as its [type] (read back as [current.type]). *)
Definition snapshot (event : Event) (id : option Z) : Snapshot :=
  {| s_type := normalizeEvent (e_type event); s_event := event;
     s_touch := id |}.

(** Modelled from the spec: the constructor [new Input(event, id)];
    section 4.2 (3): [id] is absent on the single-pointer path and the
    record then has the implicit identifier 0. *)
Definition newInput (event : Event) (id : option Z) : Input :=
  {| identifier := default 0%Z id;
     current := snapshot event id;
     history := [] |}.

(** Modelled from the spec: [input.update(event, id)]; section 3: the record
    is mutated to the new phase and positional data, its identifier is
    stable. *)
Definition update (i : Input) (event : Event) (id : option Z) : Input :=
  {| identifier := identifier i;
     current := snapshot event id;
     history := current i :: history i |}.

Definition is_start (event : Event) : bool :=
  bool_decide (normalizeEvent (e_type event) = Start).

(** The [for ... in event.changedTouches] loop. The filter on the keys
    keeps exactly the indexed entries, visited in increasing order.
    [Some b] is an early [return b]; [None] means the loop ran out. *)
Fixpoint changedLoop (event : Event) (changed : list Touch) (st : State)
    : option bool * State :=
  match changed with
  | [] => (None, st)
  | t :: rest =>
      let id := t_identifier t in
      if is_start event then
        match inputs_at (inputs st) id with
        | Some _ => (Some false, resetInputs st)
        | None =>
            changedLoop event rest
              (set_inputs st (inputs st ++ [newInput event (Some id)]))
        end
      else
        match inputs_at (inputs st) id with
        | Some i =>
            changedLoop event rest
              (set_inputs st
                 (<[Z.to_nat id := update i event (Some id)]> (inputs st)))
        | None => changedLoop event rest st
        end
  end.

Definition updateInputs (st : State) (event : Event)
    : Completion bool * State :=
  match e_touches event with
  | Some touches =>
      match e_targetTouches event with
      | None =>
          (* event.targetTouches.length on undefined *)
          (Throw TypeError, st)
      | Some targetTouches =>
          if negb (Nat.eqb (length touches) (length targetTouches))
          then (Normal false, resetInputs st)
          else
            (* for-in over an absent changedTouches iterates nothing *)
            match changedLoop event (default [] (e_changedTouches event)) st
            with
            | (Some b, st') => (Normal b, st')
            | (None, st') => (Normal true, st')
            end
      end
  | None =>
      if is_start event
      then (Normal true, set_inputs st (inputs st ++ [newInput event None]))
      else
        match inputs st !! 0 with
        | Some i =>
            (Normal true,
             set_inputs st (<[0 := update i event None]> (inputs st)))
        | None =>
            (* this.inputs[0].update on undefined *)
            (Throw TypeError, st)
        end
  end.

(** Calls a client can make on the tracker. *)
Inductive TrackerCall : Type :=
| CallUpdate (event : Event)
| CallReset.

Definition trackerStep (st : State) (c : TrackerCall) : State :=
  match c with
  | CallUpdate event => snd (updateInputs st event)
  | CallReset => resetInputs st
  end.

Definition trackerRun (st : State) (cs : list TrackerCall) : State :=
  foldl trackerStep st cs.

End Tracker.

(** Invariant I2 of the specification: two different records that are both
    not ended have different identifiers. *)
Definition distinctActive (l : list Input) : Prop :=
  ∀ (j k : nat) (a b : Input),
    j ≠ k → l !! j = Some a → l !! k = Some b →
    s_type (current a) ≠ End → s_type (current b) ≠ End →
    identifier a ≠ identifier b.

(** Modelled from the spec: one concrete [util.normalizeEvent] over the DOM
    event names, used to run the tracker on examples; section 4.1 fixes its
    range, the raw labels are the DOM's. *)
Definition normalizeEvent_dom (type : string) : Phase :=
  if String.eqb type "mousedown" || String.eqb type "touchstart" then Start
  else if String.eqb type "mousemove" || String.eqb type "touchmove" then Move
  else if String.eqb type "mouseup" || String.eqb type "touchend" then End
  else if String.eqb type "touchcancel" then Cancel
  else Unrecognized.

(** Event builders for examples. *)
Definition touchAt (id : Z) : Touch := mkTouch id (0, 0)%Z.

Definition touchEvent (type : string) (touches targetTouches changed : list Z)
    : Event :=
  mkEvent type (Some (touchAt <$> touches)) (Some (touchAt <$> targetTouches))
    (Some (touchAt <$> changed)).

Definition mouseEvent (type : string) : Event := mkEvent type None None None.

Local Close Scope string_scope.

(** ** Sequences of [addBinding] calls *)

Record BindCall : Type := mkBindCall {
  c_element : Element;
  c_gesture : JsVal;
  c_handler : Handler;
  c_capture : bool;
  c_bindOnce : bool
}.

Definition bindStep (st : State) (c : BindCall) : State :=
  snd (addBinding st (c_element c) (c_gesture c) (c_handler c) (c_capture c)
         (c_bindOnce c)).

Definition bindRun (st : State) (cs : list BindCall) : State :=
  foldl bindStep st cs.

(** The Gesture objects handed to the calls, in call order. *)
Fixpoint gestureObjects (cs : list BindCall) : list gref :=
  match cs with
  | [] => []
  | c :: cs' =>
      match c_gesture c with
      | JGesture g => g :: gestureObjects cs'
      | _ => gestureObjects cs'
      end
  end.

(** ** getGestureType *)

(** [keys.indexOf(s)], scanning from position [from]: the first position
    that holds [s], and -1 when no position does. *)
Fixpoint indexOf_from (keys : list string) (s : string) (from : Z) : Z :=
  match keys with
  | [] => (-1)%Z
  | k :: keys' =>
      if String.eqb k s then from else indexOf_from keys' s (from + 1)%Z
  end.

Definition indexOf (keys : list string) (s : string) : Z :=
  indexOf_from keys s 0.

(** [Object.keys(state.registeredGestures)]: the own property names in
    creation order; inherited names are not listed. *)
Definition registeredGestures_keys : list string :=
  fst <$> registeredGestures_own.

Section GestureType.

(** [Gesture.getType] is defined in gestures/Gesture.js, which is not among
    the sources: the function is parametric in it. *)
Variable getType : gref → JsVal.

(** The private function [getGestureType]. A string is never an instance of
    Gesture, so a string that fails the first test ends in the last
    branch. *)
Definition getGestureType (gesture : JsVal) : JsVal :=
  match gesture with
  | JString s =>
      if (-1 <? indexOf registeredGestures_keys s)%Z then gesture else JNull
  | JGesture g => getType g
  | _ => JNull
  end.

End GestureType.

(** ** Predicates on states *)

(** Every id stored in a Gesture object was handed out by the counter. *)
Definition idsBelowCounter (st : State) : Prop :=
  ∀ (g : gref) (n : nat), getId st g = Some n → n < numGestures st.

(** No id is held by two Gesture objects. *)
Definition idsInjective (st : State) : Prop :=
  ∀ (g1 g2 : gref) (n : nat),
    getId st g1 = Some n → getId st g2 = Some n → g1 = g2.

(** What a Binding and the listener registered for it have in common. *)
Definition bindingKey (b : Binding) : Element * Handler * bool :=
  (b_element b, b_handler b, b_capture b).

Definition listenerKey (l : Listener) : Element * Handler * bool :=
  (l_element l, l_handler l, l_capture l).

(** The part of the state the tracker does not own. *)
Definition registryOf (st : State)
    : list Binding * nat * gmap gref nat * list Listener :=
  (bindings st, numGestures st, gestureIds st, listeners st).

(** A record that [numActiveInputs] counts. *)
Definition isActive (i : Input) : Prop := s_type (current i) ≠ End.

(** How many of the changed touches bear the identifier [k], that is, select
    the array position [k]. *)
Definition selections (changed : list Touch) (k : nat) : nat :=
  length (filter (λ t, t_identifier t = Z.of_nat k) changed).

(** Every record sits at the array position equal to its identifier. *)
Definition positioned (l : list Input) : Prop :=
  ∀ (k : nat) (r : Input), l !! k = Some r → identifier r = Z.of_nat k.

(** * Properties of the binding registry *)

Section BindingFacts.

Implicit Types (st : State) (g : gref) (c : BindCall).

Lemma addBinding_finish_ids st e v h cap once :
  gestureIds (snd (addBinding_finish st e v h cap once)) = gestureIds st
  ∧ numGestures (snd (addBinding_finish st e v h cap once)) = numGestures st.
Proof. destruct v; simpl; auto. Qed.

(** A call with a Gesture object stores the old counter in the object and
    advances the counter. *)
Lemma addBinding_object st e g h cap once :
  getId (snd (addBinding st e (JGesture g) h cap once)) g
    = Some (numGestures st)
  ∧ numGestures (snd (addBinding st e (JGesture g) h cap once))
    = S (numGestures st).
Proof.
  unfold getId; simpl. split; [apply lookup_insert_eq | reflexivity].
Qed.

Lemma addBinding_object_other st e g g' h cap once :
  g ≠ g' →
  getId (snd (addBinding st e (JGesture g) h cap once)) g' = getId st g'.
Proof. intros Hne. unfold getId; simpl. by apply lookup_insert_ne. Qed.

(** Every other call leaves the id store and the counter alone. *)
Lemma addBinding_not_object st e v h cap once :
  instanceof_Gesture v = false →
  gestureIds (snd (addBinding st e v h cap once)) = gestureIds st
  ∧ numGestures (snd (addBinding st e v h cap once)) = numGestures st.
Proof.
  intros Hv. destruct v; simpl in *; try discriminate; auto.
  destruct (typeof_is_undefined (registeredGestures_get s)); simpl; auto.
  apply addBinding_finish_ids.
Qed.

Lemma bindRun_cons st c cs : bindRun st (c :: cs) = bindRun (bindStep st c) cs.
Proof. reflexivity. Qed.

Lemma bindStep_counter st c :
  numGestures (bindStep st c)
  = numGestures st + length (gestureObjects [c]).
Proof.
  unfold bindStep. destruct c as [e v h cap once]; simpl.
  destruct v as [s|g| | | | |]; try (simpl; lia).
  destruct (addBinding_not_object st e (JString s) h cap once eq_refl)
    as [_ Hn].
  simpl in Hn |- *. lia.
Qed.

Lemma bindRun_counter cs : ∀ st,
  numGestures (bindRun st cs) = numGestures st + length (gestureObjects cs).
Proof.
  induction cs as [|c cs IH]; intros st.
  - simpl. lia.
  - rewrite bindRun_cons, IH, bindStep_counter. simpl.
    destruct (c_gesture c); simpl; lia.
Qed.

Lemma bindStep_getId_other st c g :
  g ∉ gestureObjects [c] → getId (bindStep st c) g = getId st g.
Proof.
  unfold bindStep. destruct c as [e v h cap once]; simpl.
  destruct v as [s|g'| | | | |]; intros Hg; try reflexivity.
  - unfold getId.
    by destruct (addBinding_not_object st e (JString s) h cap once eq_refl)
      as [-> _].
  - apply addBinding_object_other. intros ->. apply Hg. left.
Qed.

Lemma bindRun_getId_other cs : ∀ st g,
  g ∉ gestureObjects cs → getId (bindRun st cs) g = getId st g.
Proof.
  induction cs as [|c cs IH]; intros st g Hg; [reflexivity|].
  rewrite bindRun_cons, IH.
  - apply bindStep_getId_other. simpl in *.
    destruct (c_gesture c); try apply not_elem_of_nil.
    intros Hin. apply Hg. apply list_elem_of_singleton in Hin as ->. left.
  - simpl in Hg. destruct (c_gesture c); try assumption.
    intros Hin. apply Hg. by right.
Qed.

Lemma seq_StronglySorted (len start : nat) :
  StronglySorted lt (seq start len).
Proof.
  revert start. induction len as [|len IH]; intros start; simpl.
  - constructor.
  - constructor; [apply IH|].
    apply Forall_forall. intros x Hx. apply elem_of_seq in Hx. lia.
Qed.

(** A name outside the literal yields no Binding: the result is [null], or
    [undefined] for a name inherited from [Object.prototype]; the state is
    untouched either way. *)
Lemma addBinding_unknown_name st e name h cap once :
  assoc name registeredGestures_own = None →
  addBinding st e (JString name) h cap once
  = (match assoc name object_prototype with
     | Some _ => RetUndefined
     | None => RetNull
     end, st).
Proof.
  intros Hown. unfold addBinding, registeredGestures_get. rewrite Hown.
  destruct (assoc name object_prototype); reflexivity.
Qed.

End BindingFacts.

(** ** Identifier assignment *)

(** C1, as stated, fails: binding from the initial state a Gesture object
    gives it the id 0, and binding the same object once more replaces that
    id by 1. *)
Lemma C1_id_reassigned_counterexample :
  ¬ (∀ (st : State) (e : Element) (g : gref) (h : Handler) (cap once : bool),
        is_Some (getId st g) →
        getId (snd (addBinding st e (JGesture g) h cap once)) g = getId st g).
Proof.
  intros Hclaim.
  pose (st1 := snd (addBinding initialState 1 (JGesture 9) 7 false false)).
  specialize (Hclaim st1 2 9 8 false false).
  assert (Hbound : is_Some (getId st1 9)) by (exists 0; reflexivity).
  specialize (Hclaim Hbound).
  vm_compute in Hclaim. discriminate.
Qed.

(** C1 (amended): every [addBinding] call that is passed a Gesture object
    stores the current value of the counter as the id of that object and
    advances the counter, whether or not the object was bound before; the
    id a re-bound object ends with is strictly larger than the one its
    earlier binding gave it, whatever calls came in between. *)
Theorem C1_rebinding_assigns_larger_id
    (st : State) (first second : BindCall) (between : list BindCall)
    (g : gref) :
  c_gesture first = JGesture g →
  c_gesture second = JGesture g →
  let st1 := bindStep st first in
  let st2 := bindRun st1 between in
  let st3 := bindStep st2 second in
  getId st1 g = Some (numGestures st)
  ∧ getId st3 g = Some (numGestures st2)
  ∧ numGestures st < numGestures st2
  ∧ numGestures st3 = S (numGestures st2).
Proof.
  intros Hfirst Hsecond st1 st2 st3.
  destruct first as [e1 v1 h1 cap1 once1], second as [e2 v2 h2 cap2 once2].
  simpl in Hfirst, Hsecond. subst v1 v2.
  destruct (addBinding_object st e1 g h1 cap1 once1) as [Hid1 Hn1].
  destruct (addBinding_object st2 e2 g h2 cap2 once2) as [Hid3 Hn3].
  repeat split; try assumption.
  subst st2. rewrite bindRun_counter. subst st1. unfold bindStep; simpl. lia.
Qed.

Lemma C1_rebinding_assigns_larger_id_witness :
  let first := mkBindCall 1 (JGesture 9) 7 false false in
  let second := mkBindCall 2 (JGesture 9) 8 true false in
  let between := [mkBindCall 1 (JString "tap") 7 false false] in
  c_gesture first = JGesture 9
  ∧ c_gesture second = JGesture 9
  ∧ getId (bindStep initialState first) 9 = Some 0
  ∧ getId (bindStep (bindRun (bindStep initialState first) between) second) 9
    = Some 1.
Proof.
  intros first second between.
  split; [reflexivity|]. split; [reflexivity|].
  destruct (C1_rebinding_assigns_larger_id initialState first second between 9
              eq_refl eq_refl) as (H1 & H3 & _ & _).
  split; [exact H1 | exact H3].
Defined.

(** C9: binding N distinct Gesture objects gives them N strictly increasing
    ids in call order: the k-th object handed to [addBinding] ends with the
    id [numGestures + k], whatever the elements, handlers and flags of the
    calls and whatever other calls (by name, or rejected ones) are
    interleaved. *)
Theorem C9_distinct_objects_increasing_ids (st : State) (cs : list BindCall) :
  NoDup (gestureObjects cs) →
  getId (bindRun st cs) <$> gestureObjects cs
  = Some <$> seq (numGestures st) (length (gestureObjects cs))
  ∧ StronglySorted lt (seq (numGestures st) (length (gestureObjects cs))).
Proof.
  intros Hnd. split; [|apply seq_StronglySorted].
  revert st Hnd. induction cs as [|c cs IH]; intros st Hnd; [reflexivity|].
  rewrite bindRun_cons.
  destruct c as [e v h cap once].
  destruct v as [s|g| | | | |];
    try (simpl in Hnd |- *; exact (IH _ Hnd)).
  - simpl in Hnd |- *. rewrite (IH _ Hnd). f_equal. f_equal.
    pose proof (bindStep_counter st (mkBindCall e (JString s) h cap once)) as Hn.
    simpl in Hn. lia.
  - simpl in Hnd |- *. apply NoDup_cons in Hnd as [Hfresh Hnd].
    rewrite (IH _ Hnd), bindRun_getId_other by assumption.
    destruct (addBinding_object st e g h cap once) as [Hid Hn].
    unfold bindStep at 1; simpl c_element; simpl c_gesture.
    unfold bindStep; simpl. unfold getId; simpl.
    rewrite lookup_insert_eq. reflexivity.
Qed.

Lemma C9_distinct_objects_increasing_ids_witness :
  let cs := [ mkBindCall 1 (JGesture 20) 7 false false;
              mkBindCall 2 (JString "pan") 7 false false;
              mkBindCall 2 (JGesture 21) 8 true false;
              mkBindCall 1 (JNumber 3) 7 false false;
              mkBindCall 1 (JGesture 22) 9 false true ] in
  NoDup (gestureObjects cs)
  ∧ getId (bindRun initialState cs) <$> [20; 21; 22]
    = [Some 0; Some 1; Some 2].
Proof.
  intros cs.
  assert (Hnd : NoDup (gestureObjects cs)).
  { apply (bool_decide_unpack (NoDup (gestureObjects cs))). vm_compute.
    exact I. }
  split; [exact Hnd|].
  exact (proj1 (C9_distinct_objects_increasing_ids initialState cs Hnd)).
Defined.

(** ** Rejected gesture arguments *)

(** C8, evaluated at a failing input: ["toString"] is none of the six
    registered names, yet the lookup finds the function inherited from
    [Object.prototype]; it is not [undefined] and not a Gesture, so the call
    falls off the end of the function and yields [undefined] instead of
    [null]. The state, binding list included, is unchanged. *)
Theorem C8_inherited_name_yields_undefined
    (st : State) (e : Element) (h : Handler) (cap once : bool) :
  assoc "toString" registeredGestures_own = None
  ∧ addBinding st e (JString "toString") h cap once = (RetUndefined, st).
Proof. split; reflexivity. Qed.

(** C10: an argument that is neither a string nor a Gesture instance makes
    [addBinding] return [null] and leaves the whole state as it was, the
    binding list and the id counter in particular. *)
Theorem C10_non_gesture_argument_rejected
    (st : State) (e : Element) (v : JsVal) (h : Handler) (cap once : bool) :
  typeof_is_string v = false →
  instanceof_Gesture v = false →
  addBinding st e v h cap once = (RetNull, st)
  ∧ bindings (snd (addBinding st e v h cap once)) = bindings st
  ∧ numGestures (snd (addBinding st e v h cap once)) = numGestures st.
Proof.
  intros Hstr Hges.
  assert (Heq : addBinding st e v h cap once = (RetNull, st))
    by (destruct v; simpl in *; try discriminate; reflexivity).
  rewrite Heq. repeat split.
Qed.

Lemma C10_non_gesture_argument_rejected_witness :
  typeof_is_string (JObject 3) = false
  ∧ instanceof_Gesture (JObject 3) = false
  ∧ addBinding initialState 1 (JObject 3) 7 false false
    = (RetNull, initialState).
Proof.
  split; [reflexivity|]. split; [reflexivity|].
  exact (proj1 (C10_non_gesture_argument_rejected initialState 1 (JObject 3) 7
                  false false eq_refl eq_refl)).
Defined.

(** * Properties of the contact tracker *)

Section TrackerFacts.

Variable normalizeEvent : string → Phase.

Implicit Types (st : State) (event : Event) (l : list Input).

Lemma set_inputs_same st : set_inputs st (inputs st) = st.
Proof. by destruct st. Qed.

Lemma countActive_acc l : ∀ count,
  countActive l count = count + countActive l 0.
Proof.
  induction l as [|i l IH]; intros count; simpl; [lia|].
  destruct (decide (s_type (current i) ≠ End)).
  - rewrite (IH (S count)), (IH 1). lia.
  - apply IH.
Qed.

(** Overwriting a record by one that is not ended never lowers the count. *)
Lemma countActive_insert l : ∀ (k : nat) (x : Input),
  s_type (current x) ≠ End →
  countActive l 0 ≤ countActive (<[k := x]> l) 0.
Proof.
  induction l as [|i l IH]; intros k x Hx; [simpl; lia|].
  destruct k as [|k]; simpl.
  - destruct (decide (s_type (current x) ≠ End)); [|contradiction].
    destruct (decide (s_type (current i) ≠ End)); [lia|].
    rewrite (countActive_acc l 1). lia.
  - destruct (decide (s_type (current i) ≠ End)).
    + rewrite (countActive_acc l 1), (countActive_acc (<[k:=x]> l) 1).
      specialize (IH k x Hx). lia.
    + by apply IH.
Qed.

Lemma insert_identifiers l (k : nat) (i : Input) event id :
  l !! k = Some i →
  identifier <$> <[k := update normalizeEvent i event id]> l
  = identifier <$> l.
Proof.
  intros Hk. rewrite list_fmap_insert. simpl.
  apply list_insert_id. by rewrite list_lookup_fmap, Hk.
Qed.

Lemma inputs_at_Some l (id : Z) (i : Input) :
  inputs_at l id = Some i → l !! Z.to_nat id = Some i.
Proof. unfold inputs_at. by destruct (0 <=? id)%Z. Qed.

(** On a phase other than start the loop never returns early, keeps the
    records and their identifiers, and touches nothing but [inputs]. *)
Lemma changedLoop_not_start event (changed : list Touch) :
  is_start normalizeEvent event = false →
  ∀ st, ∃ l',
    changedLoop normalizeEvent event changed st = (None, set_inputs st l')
    ∧ identifier <$> l' = identifier <$> inputs st
    ∧ (normalizeEvent (e_type event) ≠ End →
       countActive (inputs st) 0 ≤ countActive l' 0).
Proof.
  intros Hphase. induction changed as [|t rest IH]; intros st.
  - exists (inputs st). simpl. rewrite set_inputs_same. auto.
  - simpl. rewrite Hphase.
    destruct (inputs_at (inputs st) (t_identifier t)) as [i|] eqn:Hat.
    + apply inputs_at_Some in Hat.
      destruct (IH (set_inputs st
                      (<[Z.to_nat (t_identifier t) :=
                           update normalizeEvent i event
                             (Some (t_identifier t))]> (inputs st))))
        as (l' & Hrun & Hids & Hcount).
      exists l'. split; [exact Hrun|]. simpl in Hids, Hcount. split.
      * rewrite Hids. by apply insert_identifiers.
      * intros Hne. etrans; [|exact (Hcount Hne)].
        by apply countActive_insert.
    + apply IH.
Qed.


(** The duplicate-start branch as written: when the identifier of the
    first datum of a start batch selects a record, the tracker is cleared
    and [false] is returned at once. *)
Lemma changedLoop_start_hit event (t : Touch) (rest : list Touch) st i :
  is_start normalizeEvent event = true →
  inputs_at (inputs st) (t_identifier t) = Some i →
  changedLoop normalizeEvent event (t :: rest) st
  = (Some false, resetInputs st).
Proof. intros Hphase Hat. simpl. by rewrite Hphase, Hat. Qed.

Lemma is_start_false event :
  normalizeEvent (e_type event) ≠ Start →
  is_start normalizeEvent event = false.
Proof. intros Hne. unfold is_start. by apply bool_decide_eq_false. Qed.

Lemma is_start_true event :
  normalizeEvent (e_type event) = Start →
  is_start normalizeEvent event = true.
Proof. intros Heq. unfold is_start. by apply bool_decide_eq_true. Qed.

(** On a phase other than start the loop leaves every record at its
    position and applies [update] to the record at position [k] once for
    each changed touch that bears the identifier [k]. *)
Lemma changedLoop_not_start_exact event (changed : list Touch) :
  is_start normalizeEvent event = false →
  ∀ st, ∃ l',
    changedLoop normalizeEvent event changed st = (None, set_inputs st l')
    ∧ length l' = length (inputs st)
    ∧ ∀ (k : nat) (r : Input),
        inputs st !! k = Some r →
        l' !! k
        = Some (Nat.iter (selections changed k)
                  (λ x, update normalizeEvent x event (Some (Z.of_nat k))) r).
Proof.
  intros Hphase. unfold selections.
  induction changed as [|t rest IH]; intros st.
  - exists (inputs st). simpl. rewrite set_inputs_same. auto.
  - simpl. rewrite Hphase.
    destruct (inputs_at (inputs st) (t_identifier t)) as [i|] eqn:Hat.
    + pose proof Hat as Hsel. unfold inputs_at in Hsel.
      destruct (0 <=? t_identifier t)%Z eqn:Hsign; [|discriminate].
      apply Z.leb_le in Hsign.
      destruct (IH (set_inputs st
                      (<[Z.to_nat (t_identifier t) :=
                           update normalizeEvent i event
                             (Some (t_identifier t))]> (inputs st))))
        as (l' & Hrun & Hlen & Hat').
      exists l'. split; [exact Hrun|]. simpl in Hlen, Hat'.
      rewrite length_insert in Hlen. split; [exact Hlen|].
      intros k r Hk.
      destruct (decide (Z.to_nat (t_identifier t) = k)) as [Heq|Hne].
      * assert (Hid : t_identifier t = Z.of_nat k) by lia.
        assert (i = r) by (rewrite Heq in Hsel; congruence). subst i.
        rewrite filter_cons_True by exact Hid. simpl length.
        rewrite Nat.iter_succ_r. apply Hat'. rewrite Hid, Nat2Z.id.
        apply list_lookup_insert_eq. by eapply lookup_lt_Some.
      * rewrite filter_cons_False by lia.
        apply Hat'. by rewrite list_lookup_insert_ne.
    + destruct (IH st) as (l' & Hrun & Hlen & Hat').
      exists l'. split; [exact Hrun|]. split; [exact Hlen|].
      intros k r Hk.
      assert (Hne : t_identifier t ≠ Z.of_nat k).
      { intros Hid. unfold inputs_at in Hat. rewrite Hid in Hat.
        destruct (0 <=? Z.of_nat k)%Z eqn:Hsign;
          [|apply Z.leb_gt in Hsign; lia].
        rewrite Nat2Z.id in Hat. congruence. }
      rewrite filter_cons_False by exact Hne. by apply Hat'.
Qed.

(** What a record looks like after [update] was applied to it at least
    once. *)
Lemma iter_update_current (n : nat) (r : Input) event (id : option Z) :
  0 < n →
  current (Nat.iter n (λ x, update normalizeEvent x event id) r)
  = snapshot normalizeEvent event id
  ∧ identifier (Nat.iter n (λ x, update normalizeEvent x event id) r)
    = identifier r.
Proof.
  intros Hn. destruct n as [|n]; [lia|]. simpl. split; [reflexivity|].
  clear Hn. induction n as [|n IH]; [reflexivity | exact IH].
Qed.

(** The first statement of [updateInputs]. *)
Lemma updateInputs_mismatch st event (touches targetTouches : list Touch) :
  e_touches event = Some touches →
  e_targetTouches event = Some targetTouches →
  length touches ≠ length targetTouches →
  updateInputs normalizeEvent st event = (Normal false, resetInputs st).
Proof.
  intros Htouches Htarget Hlen. unfold updateInputs.
  rewrite Htouches, Htarget. apply Nat.eqb_neq in Hlen. by rewrite Hlen.
Qed.

(** The loop is entered when the two lengths agree. *)
Lemma updateInputs_match st event (touches targetTouches : list Touch) :
  e_touches event = Some touches →
  e_targetTouches event = Some targetTouches →
  length touches = length targetTouches →
  updateInputs normalizeEvent st event
  = match changedLoop normalizeEvent event
            (default [] (e_changedTouches event)) st with
    | (Some b, st') => (Normal b, st')
    | (None, st') => (Normal true, st')
    end.
Proof.
  intros Htouches Htarget Hlen. unfold updateInputs.
  by rewrite Htouches, Htarget, Hlen, Nat.eqb_refl.
Qed.

(** A start event with one changed touch whose identifier selects no
    record appends a record. *)
Lemma updateInputs_start_miss st (type : string) (id : Z) :
  normalizeEvent type = Start →
  inputs_at (inputs st) id = None →
  updateInputs normalizeEvent st (touchEvent type [id] [id] [id])
  = (Normal true,
     set_inputs st
       (inputs st ++ [newInput normalizeEvent
                        (touchEvent type [id] [id] [id]) (Some id)])).
Proof.
  intros Hphase Hat.
  rewrite (updateInputs_match st (touchEvent type [id] [id] [id])
             (touchAt <$> [id]) (touchAt <$> [id]) eq_refl eq_refl eq_refl).
  simpl default. unfold changedLoop.
  rewrite (is_start_true (touchEvent type [id] [id] [id]) Hphase).
  simpl t_identifier. by rewrite Hat.
Qed.

End TrackerFacts.

(** ** Resets *)

(** C7: when [touches] is present and its length differs from that of
    [targetTouches], [updateInputs] returns [false] and leaves no contact
    record, hence an active count of 0, whatever the phase and the changed
    touches; the rest of the state is as before. *)
Theorem C7_count_mismatch_clears
    (normalizeEvent : string → Phase) (st : State) (event : Event)
    (touches targetTouches : list Touch) :
  e_touches event = Some touches →
  e_targetTouches event = Some targetTouches →
  length touches ≠ length targetTouches →
  updateInputs normalizeEvent st event = (Normal false, resetInputs st)
  ∧ inputs (snd (updateInputs normalizeEvent st event)) = []
  ∧ numActiveInputs (snd (updateInputs normalizeEvent st event)) = 0.
Proof.
  intros Htouches Htarget Hlen.
  rewrite (updateInputs_mismatch normalizeEvent st event touches
             targetTouches Htouches Htarget Hlen).
  repeat split.
Qed.

Lemma C7_count_mismatch_clears_witness :
  let start := touchEvent "touchstart" [0%Z; 1%Z] [0%Z; 1%Z] [0%Z; 1%Z] in
  let st := snd (updateInputs normalizeEvent_dom initialState start) in
  let event := touchEvent "touchmove" [0%Z; 1%Z] [0%Z] [1%Z] in
  numActiveInputs st = 2
  ∧ length (touchAt <$> [0%Z; 1%Z]) ≠ length (touchAt <$> [0%Z])
  ∧ fst (updateInputs normalizeEvent_dom st event) = Normal false
  ∧ numActiveInputs (snd (updateInputs normalizeEvent_dom st event)) = 0.
Proof.
  intros start st event.
  assert (Hlen : length (touchAt <$> [0%Z; 1%Z]) ≠ length (touchAt <$> [0%Z]))
    by (simpl; lia).
  split; [reflexivity|]. split; [exact Hlen|].
  destruct (C7_count_mismatch_clears normalizeEvent_dom st event
              (touchAt <$> [0%Z; 1%Z]) (touchAt <$> [0%Z])
              eq_refl eq_refl Hlen) as (Hres & _ & Hcount).
  split; [by rewrite Hres | exact Hcount].
Defined.

(** C3, as stated, fails: after one contact has started, a cancel event for
    it (with matching touch counts) is answered by [true] and the record is
    still counted as active. *)
Lemma C3_cancel_counterexample :
  ¬ (∀ (normalizeEvent : string → Phase) (st : State) (event : Event),
        normalizeEvent (e_type event) = Cancel →
        fst (updateInputs normalizeEvent st event) = Normal false
        ∧ numActiveInputs (snd (updateInputs normalizeEvent st event)) = 0).
Proof.
  intros Hclaim.
  pose (st := snd (updateInputs normalizeEvent_dom initialState
                     (touchEvent "touchstart" [0%Z] [0%Z] [0%Z]))).
  destruct (Hclaim normalizeEvent_dom st
              (touchEvent "touchcancel" [0%Z] [0%Z] [0%Z]) eq_refl)
    as [Hres _].
  vm_compute in Hres. discriminate.
Qed.

(** C3 (amended): a cancel event is handled like any other phase that is not
    start; nothing clears the tracker because of the phase.
    - With [touches] and [targetTouches] of different lengths the tracker is
      cleared and [false] is returned (the count guard).
    - With [touches] and [targetTouches] of equal length, [true] is returned
      and only [inputs] is modified: every record stays at its position;
      the record at position [k] is updated in place once for each changed
      touch that bears the identifier [k], so a selected record gets the
      event as its current snapshot, in the cancel phase, and keeps its
      identifier, while a record that no changed touch selects is exactly
      as before; the identifiers are unchanged and the active count does
      not decrease.
    - Without [touches], and with at least one record, [true] is returned
      and the first record, and no other, is updated in place. *)
Theorem C3_cancel_is_an_ordinary_phase
    (normalizeEvent : string → Phase) (st : State) (event : Event) :
  normalizeEvent (e_type event) = Cancel →
  (∀ touches targetTouches : list Touch,
     e_touches event = Some touches →
     e_targetTouches event = Some targetTouches →
     (length touches ≠ length targetTouches →
        updateInputs normalizeEvent st event = (Normal false, resetInputs st))
     ∧ (length touches = length targetTouches →
        let changed := default [] (e_changedTouches event) in
        ∃ l', updateInputs normalizeEvent st event
              = (Normal true, set_inputs st l')
            ∧ length l' = length (inputs st)
            ∧ (∀ (k : nat) (r : Input),
                 inputs st !! k = Some r →
                 ∃ r', l' !! k = Some r'
                     ∧ r' = Nat.iter (selections changed k)
                              (λ x, update normalizeEvent x event
                                      (Some (Z.of_nat k))) r
                     ∧ (selections changed k = 0 → r' = r)
                     ∧ (0 < selections changed k →
                        current r'
                        = snapshot normalizeEvent event (Some (Z.of_nat k))
                        ∧ s_type (current r') = Cancel
                        ∧ identifier r' = identifier r))
            ∧ identifier <$> l' = identifier <$> inputs st
            ∧ numActiveInputs st ≤ numActiveInputs (set_inputs st l')))
  ∧ (e_touches event = None →
     ∀ (i : Input) (l : list Input),
       inputs st = i :: l →
       updateInputs normalizeEvent st event
       = (Normal true,
          set_inputs st (update normalizeEvent i event None :: l))
       ∧ s_type (current (update normalizeEvent i event None)) = Cancel).
Proof.
  intros Hphase.
  assert (Hns : is_start normalizeEvent event = false)
    by (apply is_start_false; congruence).
  split.
  - intros touches targetTouches Htouches Htarget. split; intros Hlen.
    + by apply (updateInputs_mismatch normalizeEvent st event touches
                  targetTouches).
    + intros changed.
      destruct (changedLoop_not_start normalizeEvent event changed Hns st)
        as (l' & Hrun & Hids & Hcount).
      destruct (changedLoop_not_start_exact normalizeEvent event changed Hns
                  st) as (l'' & Hrun' & Hlen' & Hat).
      assert (l'' = l') as ->.
      { rewrite Hrun in Hrun'. by injection Hrun'. }
      exists l'.
      rewrite (updateInputs_match normalizeEvent st event touches
                 targetTouches Htouches Htarget Hlen).
      fold changed. rewrite Hrun.
      split; [reflexivity|]. split; [exact Hlen'|]. split.
      * intros k r Hk. eexists. split; [exact (Hat k r Hk)|].
        split; [reflexivity|]. split.
        -- intros ->. reflexivity.
        -- intros Hsel.
           destruct (iter_update_current normalizeEvent
                       (selections changed k) r event (Some (Z.of_nat k))
                       Hsel) as [Hcur Hid].
           rewrite Hcur. split; [reflexivity|]. split; [exact Hphase|].
           exact Hid.
      * split; [exact Hids|]. apply Hcount. congruence.
  - intros Htouches i l Hinputs. split; [|exact Hphase].
    unfold updateInputs. by rewrite Htouches, Hns, Hinputs.
Qed.

Lemma C3_cancel_is_an_ordinary_phase_witness :
  let start := touchEvent "touchstart" [0%Z; 1%Z] [0%Z; 1%Z] [0%Z; 1%Z] in
  let st := snd (updateInputs normalizeEvent_dom initialState start) in
  let event := touchEvent "touchcancel" [0%Z; 1%Z] [0%Z; 1%Z] [1%Z] in
  let pointer := mkEvent "touchcancel" None None None in
  normalizeEvent_dom (e_type event) = Cancel
  ∧ fst (updateInputs normalizeEvent_dom st event) = Normal true
  ∧ inputs (snd (updateInputs normalizeEvent_dom st event))
    = [newInput normalizeEvent_dom start (Some 0%Z);
       update normalizeEvent_dom (newInput normalizeEvent_dom start (Some 1%Z))
         event (Some 1%Z)]
  ∧ normalizeEvent_dom (e_type pointer) = Cancel
  ∧ inputs (snd (updateInputs normalizeEvent_dom st pointer))
    = [update normalizeEvent_dom (newInput normalizeEvent_dom start (Some 0%Z))
         pointer None;
       newInput normalizeEvent_dom start (Some 1%Z)].
Proof.
  intros start st event pointer. split; [reflexivity|].
  destruct (C3_cancel_is_an_ordinary_phase normalizeEvent_dom st event
              eq_refl) as [Htouch _].
  destruct (Htouch (touchAt <$> [0%Z; 1%Z]) (touchAt <$> [0%Z; 1%Z])
              eq_refl eq_refl) as [_ Hkeep].
  destruct (Hkeep eq_refl) as (l' & Hres & Hlen & Hat & _ & _).
  destruct (Hat 0 _ eq_refl) as (r0 & Hr0 & Heq0 & _).
  destruct (Hat 1 _ eq_refl) as (r1 & Hr1 & Heq1 & _).
  destruct (C3_cancel_is_an_ordinary_phase normalizeEvent_dom st pointer
              eq_refl) as [_ Hpointer].
  destruct (Hpointer eq_refl _ _ eq_refl) as [Hres' _].
  rewrite Hres, Hres'. split; [reflexivity|]. split; [|split; reflexivity].
  simpl inputs. destruct l' as [|a [|b [|c l']]]; try discriminate.
  simpl in Hr0, Hr1. injection Hr0 as ->. injection Hr1 as ->.
  rewrite Heq0, Heq1. reflexivity.
Defined.

(** ** The single-pointer path *)

(** C2, evaluated at failing inputs: an event without [touches] whose phase
    is not start, arriving while there is no contact record, makes
    [updateInputs] throw a [TypeError] ([this.inputs[0]] is [undefined]);
    no boolean is returned. *)
Theorem C2_single_pointer_update_throws
    (normalizeEvent : string → Phase) (st : State) (event : Event) :
  e_touches event = None →
  normalizeEvent (e_type event) ≠ Start →
  inputs st = [] →
  updateInputs normalizeEvent st event = (Throw TypeError, st).
Proof.
  intros Htouches Hphase Hempty. unfold updateInputs.
  by rewrite Htouches, (is_start_false _ _ Hphase), Hempty.
Qed.

Lemma C2_single_pointer_update_throws_witness :
  e_touches (mouseEvent "mousemove") = None
  ∧ normalizeEvent_dom (e_type (mouseEvent "mousemove")) ≠ Start
  ∧ inputs initialState = []
  ∧ updateInputs normalizeEvent_dom initialState (mouseEvent "mousemove")
    = (Throw TypeError, initialState).
Proof.
  assert (Hphase : normalizeEvent_dom (e_type (mouseEvent "mousemove")) ≠ Start)
    by (vm_compute; discriminate).
  split; [reflexivity|]. split; [exact Hphase|]. split; [reflexivity|].
  exact (C2_single_pointer_update_throws normalizeEvent_dom initialState
           (mouseEvent "mousemove") eq_refl Hphase eq_refl).
Defined.

(** ** Identifiers used as array positions *)

(** C6, evaluated at failing inputs: the start branch looks for the record
    at the array position given by the identifier. When the record carrying
    the identifier of the datum sits elsewhere, so that this position is
    empty, a second start for that identifier is accepted: no reset, the
    answer is [true] and a second record is appended. *)
Theorem C6_duplicate_start_accepted
    (normalizeEvent : string → Phase) (st : State) (event : Event)
    (touches targetTouches : list Touch) (t : Touch) (r : Input) :
  normalizeEvent (e_type event) = Start →
  e_touches event = Some touches →
  e_targetTouches event = Some targetTouches →
  length touches = length targetTouches →
  e_changedTouches event = Some [t] →
  r ∈ inputs st →
  identifier r = t_identifier t →
  s_type (current r) ≠ End →
  inputs_at (inputs st) (t_identifier t) = None →
  updateInputs normalizeEvent st event
  = (Normal true,
     set_inputs st
       (inputs st ++ [newInput normalizeEvent event (Some (t_identifier t))])).
Proof.
  intros Hphase Htouches Htarget Hlen Hchanged _ _ _ Hat.
  rewrite (updateInputs_match normalizeEvent st event touches targetTouches
             Htouches Htarget Hlen), Hchanged.
  simpl. by rewrite (is_start_true _ _ Hphase), Hat.
Qed.

Lemma C6_duplicate_start_accepted_witness :
  let event := touchEvent "touchstart" [7%Z] [7%Z] [7%Z] in
  let st := snd (updateInputs normalizeEvent_dom initialState event) in
  let r := newInput normalizeEvent_dom event (Some 7%Z) in
  inputs st = [r]
  ∧ identifier r = 7%Z
  ∧ s_type (current r) ≠ End
  ∧ inputs_at (inputs st) 7 = None
  ∧ fst (updateInputs normalizeEvent_dom st event) = Normal true
  ∧ identifier <$> inputs (snd (updateInputs normalizeEvent_dom st event))
    = [7%Z; 7%Z].
Proof.
  intros event st r.
  assert (Hin : r ∈ inputs st) by left.
  assert (Hactive : s_type (current r) ≠ End) by (vm_compute; discriminate).
  split; [reflexivity|]. split; [reflexivity|]. split; [exact Hactive|].
  split; [reflexivity|].
  rewrite (C6_duplicate_start_accepted normalizeEvent_dom st event
             (touchAt <$> [7%Z]) (touchAt <$> [7%Z]) (touchAt 7%Z) r
             eq_refl eq_refl eq_refl eq_refl eq_refl Hin eq_refl Hactive
             eq_refl).
  split; reflexivity.
Defined.

(** C4, evaluated at failing inputs: from the empty tracker, two start events
    for one identifier other than 0 leave two records with that identifier,
    both in the start phase. *)
Theorem C4_distinct_identifiers_violated
    (normalizeEvent : string → Phase) (type : string) (id : Z) :
  normalizeEvent type = Start →
  id ≠ 0%Z →
  let event := touchEvent type [id] [id] [id] in
  let st :=
    trackerRun normalizeEvent initialState
      [CallUpdate event; CallUpdate event] in
  inputs st = [newInput normalizeEvent event (Some id);
               newInput normalizeEvent event (Some id)]
  ∧ ¬ distinctActive (inputs st).
Proof.
  intros Hphase Hid event st.
  assert (Hmiss : inputs_at [newInput normalizeEvent event (Some id)] id = None).
  { unfold inputs_at. destruct (0 <=? id)%Z eqn:Hsign; [|reflexivity].
    apply Z.leb_le in Hsign. apply lookup_ge_None. simpl. lia. }
  assert (Hfirst : inputs_at (inputs initialState) id = None).
  { unfold inputs_at. by destruct (0 <=? id)%Z. }
  assert (Hinputs : inputs st = [newInput normalizeEvent event (Some id);
                                 newInput normalizeEvent event (Some id)]).
  { subst st event. unfold trackerRun. simpl foldl. unfold trackerStep.
    rewrite (updateInputs_start_miss normalizeEvent initialState type id
               Hphase Hfirst).
    simpl snd.
    rewrite updateInputs_start_miss; [reflexivity | exact Hphase | exact Hmiss]. }
  split; [exact Hinputs|].
  intros Hdistinct.
  apply (Hdistinct 0 1 (newInput normalizeEvent event (Some id))
           (newInput normalizeEvent event (Some id)));
    try (by rewrite Hinputs); try (simpl; congruence); lia.
Qed.

Lemma C4_distinct_identifiers_violated_witness :
  let event := touchEvent "touchstart" [7%Z] [7%Z] [7%Z] in
  normalizeEvent_dom "touchstart" = Start
  ∧ 7%Z ≠ 0%Z
  ∧ ¬ distinctActive
        (inputs (trackerRun normalizeEvent_dom initialState
                   [CallUpdate event; CallUpdate event])).
Proof.
  intros event.
  assert (Hid : 7%Z ≠ 0%Z) by lia.
  split; [reflexivity|]. split; [exact Hid|].
  exact (proj2 (C4_distinct_identifiers_violated normalizeEvent_dom
                  "touchstart" 7%Z eq_refl Hid)).
Defined.

(** ** Orphan updates *)




(** * Further properties of the binding registry *)

Section RegistryFacts.

Implicit Types (st : State) (e : Element) (v : JsVal) (h : Handler).

Lemma retrieveBindings_loop_filter (bs : list Binding) e :
  retrieveBindings_loop bs e = filter (λ b, b_element b = e) bs.
Proof.
  induction bs as [|b bs IH]; [reflexivity|].
  simpl. rewrite filter_cons, IH.
  destruct (Nat.eqb_spec (b_element b) e); case_decide; congruence.
Qed.

(** What a call that resolves its gesture to the instance [g] does. *)
Lemma addBinding_finish_gesture st e (g : gref) h cap once :
  addBinding_finish st e (JGesture g) h cap once
  = (RetBinding (mkBinding e g h cap once),
     {| inputs := inputs st;
        bindings := bindings st ++ [mkBinding e g h cap once];
        numGestures := numGestures st;
        gestureIds := gestureIds st;
        listeners := listeners st ++ [mkListener e (getId st g) h cap] |}).
Proof. reflexivity. Qed.

(** The three ways a call can end, with the state each one leaves. *)
Lemma addBinding_cases st e v h cap once :
  (∃ g, fst (addBinding st e v h cap once)
        = RetBinding (mkBinding e g h cap once)
      ∧ inputs (snd (addBinding st e v h cap once)) = inputs st
      ∧ bindings (snd (addBinding st e v h cap once))
        = bindings st ++ [mkBinding e g h cap once]
      ∧ listenerKey <$> listeners (snd (addBinding st e v h cap once))
        = (listenerKey <$> listeners st) ++ [(e, h, cap)])
  ∨ (fst (addBinding st e v h cap once) = RetNull
     ∧ snd (addBinding st e v h cap once) = st)
  ∨ (fst (addBinding st e v h cap once) = RetUndefined
     ∧ snd (addBinding st e v h cap once) = st).
Proof.
  destruct v as [s|g| | | | |]; try (right; left; split; reflexivity).
  - unfold addBinding, registeredGestures_get.
    destruct (assoc s registeredGestures_own) as [g|].
    + left. exists g. simpl. rewrite fmap_app. repeat split.
    + destruct (assoc s object_prototype); simpl; auto.
  - left. exists g. simpl. rewrite fmap_app. repeat split.
Qed.

Lemma bindStep_inputs st (c : BindCall) : inputs (bindStep st c) = inputs st.
Proof.
  unfold bindStep.
  destruct (addBinding_cases st (c_element c) (c_gesture c) (c_handler c)
              (c_capture c) (c_bindOnce c))
    as [(g & _ & Hin & _) | [[_ ->] | [_ ->]]]; auto.
Qed.

Lemma bindStep_bindings st (c : BindCall) :
  bindings st `prefix_of` bindings (bindStep st c)
  ∧ length (bindings (bindStep st c)) ≤ S (length (bindings st)).
Proof.
  unfold bindStep.
  destruct (addBinding_cases st (c_element c) (c_gesture c) (c_handler c)
              (c_capture c) (c_bindOnce c))
    as [(g & _ & _ & -> & _) | [[_ ->] | [_ ->]]]; try (split; [done | lia]).
  split; [by apply prefix_app_r|]. rewrite length_app. simpl. lia.
Qed.

Lemma bindStep_listeners st (c : BindCall) :
  listenerKey <$> listeners st = bindingKey <$> bindings st →
  listenerKey <$> listeners (bindStep st c)
  = bindingKey <$> bindings (bindStep st c).
Proof.
  intros Hinv. unfold bindStep.
  destruct (addBinding_cases st (c_element c) (c_gesture c) (c_handler c)
              (c_capture c) (c_bindOnce c))
    as [(g & _ & _ & -> & ->) | [[_ ->] | [_ ->]]]; try assumption.
  by rewrite fmap_app, Hinv.
Qed.

(** One step keeps the stored ids below the counter and pairwise different:
    the id a Gesture object receives is the counter value, which no object
    holds yet. *)
Lemma bindStep_ids st (c : BindCall) :
  idsBelowCounter st ∧ idsInjective st →
  idsBelowCounter (bindStep st c) ∧ idsInjective (bindStep st c).
Proof.
  intros [Hbelow Hinj]. destruct c as [e v h cap once].
  destruct (decide (instanceof_Gesture v = true)) as [Hobj|Hobj].
  - destruct v as [s|g| | | | |]; try discriminate.
    unfold bindStep, idsBelowCounter, idsInjective, getId; simpl. split.
    + intros g' n. destruct (decide (g = g')) as [<-|Hne].
      * rewrite lookup_insert_eq. intros [= <-]. lia.
      * rewrite lookup_insert_ne by done. intros Hg'.
        specialize (Hbelow g' n Hg'). lia.
    + intros g1 g2 n.
      destruct (decide (g = g1)) as [<-|Hne1];
        destruct (decide (g = g2)) as [<-|Hne2];
        rewrite ?lookup_insert_eq, ?lookup_insert_ne by done; try done.
      * intros [= <-] Hg2. specialize (Hbelow g2 _ Hg2). lia.
      * intros Hg1 [= <-]. specialize (Hbelow g1 _ Hg1). lia.
      * apply Hinj.
  - apply not_true_is_false in Hobj.
    destruct (addBinding_not_object st e v h cap once Hobj) as [Hids Hn].
    unfold bindStep, idsBelowCounter, idsInjective, getId; simpl.
    rewrite Hids, Hn. split; [exact Hbelow | exact Hinj].
Qed.

End RegistryFacts.

(** X1: [retrieveBindings] returns exactly the Bindings stored for the given
    element: all of them, nothing else, with their multiplicity and in
    registration order. *)
Theorem X1_retrieveBindings_exact (st : State) (e : Element) :
  retrieveBindings st e = filter (λ b, b_element b = e) (bindings st)
  ∧ (∀ b, b ∈ retrieveBindings st e ↔ b ∈ bindings st ∧ b_element b = e)
  ∧ retrieveBindings st e `sublist_of` bindings st.
Proof.
  unfold retrieveBindings. rewrite retrieveBindings_loop_filter.
  split; [reflexivity|]. split.
  - intros b. rewrite list_elem_of_filter. tauto.
  - apply sublist_filter.
Qed.

(** X2: [addBinding] hands back a Binding exactly when the gesture argument
    is a Gesture instance or one of the six registered names; no other
    string and no other value ever produces one. *)
Theorem X2_addBinding_success_iff
    (st : State) (e : Element) (v : JsVal) (h : Handler) (cap once : bool) :
  (∃ b, fst (addBinding st e v h cap once) = RetBinding b)
  ↔ ((∃ g, v = JGesture g)
     ∨ (∃ name, v = JString name ∧ name ∈ registeredGestures_keys)).
Proof.
  split.
  - intros [b Hb]. destruct v as [s|g| | | | |]; try discriminate.
    + right. exists s. split; [reflexivity|].
      unfold addBinding, registeredGestures_get in Hb.
      destruct (assoc s registeredGestures_own) as [g|] eqn:Hown.
      * clear Hb. unfold registeredGestures_keys.
        simpl in Hown |- *.
        repeat (match type of Hown with
                | context [String.eqb s ?k] =>
                    destruct (String.eqb_spec s k) as [->|_];
                    [set_solver|]
                end).
        discriminate.
      * destruct (assoc s object_prototype); discriminate.
    + left. by exists g.
  - intros [[g ->] | (name & -> & Hname)].
    + by eexists.
    + unfold registeredGestures_keys in Hname. simpl in Hname.
      repeat (apply elem_of_cons in Hname as [-> | Hname];
              [by eexists|]).
      by apply elem_of_nil in Hname.
Qed.

(** X3: the result and the state go together. When a Binding is returned it
    is the one made of the arguments, it is the last element of the binding
    list, whose earlier elements are as before, and one listener was added
    for its element, handler and capture flag; when [null] or [undefined] is
    returned the state is exactly what it was. *)
Theorem X3_addBinding_result_and_state
    (st : State) (e : Element) (v : JsVal) (h : Handler) (cap once : bool) :
  match fst (addBinding st e v h cap once) with
  | RetBinding b =>
      bindingKey b = (e, h, cap)
      ∧ b_bindOnce b = once
      ∧ bindings (snd (addBinding st e v h cap once)) = bindings st ++ [b]
      ∧ listenerKey <$> listeners (snd (addBinding st e v h cap once))
        = (listenerKey <$> listeners st) ++ [(e, h, cap)]
  | RetNull | RetUndefined => snd (addBinding st e v h cap once) = st
  end.
Proof.
  destruct (addBinding_cases st e v h cap once)
    as [(g & -> & _ & -> & ->) | [[-> ->] | [-> ->]]]; auto.
Qed.

(** X4: a Binding that [addBinding] returned is what [retrieveBindings]
    lists last for its element, after the Bindings it listed before; the
    lists of all other elements are unchanged. *)
Theorem X4_addBinding_then_retrieveBindings
    (st st' : State) (e : Element) (v : JsVal) (h : Handler)
    (cap once : bool) (b : Binding) :
  addBinding st e v h cap once = (RetBinding b, st') →
  retrieveBindings st' e = retrieveBindings st e ++ [b]
  ∧ (∀ e', e' ≠ e → retrieveBindings st' e' = retrieveBindings st e').
Proof.
  intros Hadd.
  pose proof (Hcases := addBinding_cases st e v h cap once).
  rewrite Hadd in Hcases. simpl in Hcases.
  destruct Hcases as [(g & [= ->] & _ & Hbs & _) | [[[=] _] | [[=] _]]].
  unfold retrieveBindings. split.
  - rewrite !retrieveBindings_loop_filter, Hbs.
    rewrite filter_app, filter_cons_True by reflexivity. reflexivity.
  - intros e' Hne. rewrite !retrieveBindings_loop_filter, Hbs.
    rewrite filter_app, filter_cons_False, filter_nil.
    + by rewrite app_nil_r.
    + simpl. congruence.
Qed.

Lemma X4_addBinding_then_retrieveBindings_witness :
  let st := bindRun initialState
              [mkBindCall 1 (JString "tap") 7 false false;
               mkBindCall 2 (JString "pan") 8 false false] in
  let b := mkBinding 1 ref_swipe 9 true false in
  let st' := snd (addBinding st 1 (JString "swipe") 9 true false) in
  addBinding st 1 (JString "swipe") 9 true false = (RetBinding b, st')
  ∧ retrieveBindings st' 1 = [mkBinding 1 ref_tap 7 false false; b]
  ∧ retrieveBindings st' 2 = retrieveBindings st 2.
Proof.
  intros st b st'.
  assert (Hadd : addBinding st 1 (JString "swipe") 9 true false
                 = (RetBinding b, st')) by reflexivity.
  split; [exact Hadd|].
  destruct (X4_addBinding_then_retrieveBindings st st' 1 (JString "swipe") 9
              true false b Hadd) as [Hsame Hother].
  split; [exact Hsame | apply Hother; lia].
Defined.

(** X5: no sequence of [addBinding] calls removes or reorders a Binding: the
    binding list before is a prefix of the list after, which has at most one
    more element per call, and what [retrieveBindings] listed for an element
    is a prefix of what it lists afterwards. *)
Theorem X5_bindings_only_grow (st : State) (cs : list BindCall) :
  bindings st `prefix_of` bindings (bindRun st cs)
  ∧ length (bindings (bindRun st cs)) ≤ length (bindings st) + length cs
  ∧ (∀ e, retrieveBindings st e `prefix_of` retrieveBindings (bindRun st cs) e).
Proof.
  assert (Hgrow : ∀ cs st,
            bindings st `prefix_of` bindings (bindRun st cs)
            ∧ length (bindings (bindRun st cs))
              ≤ length (bindings st) + length cs).
  { clear. induction cs as [|c cs IH]; intros st.
    - simpl. split; [done | lia].
    - rewrite bindRun_cons. destruct (IH (bindStep st c)) as [Hpre Hlen].
      destruct (bindStep_bindings st c) as [Hpre1 Hlen1].
      split; [by etrans | simpl; lia]. }
  destruct (Hgrow cs st) as [Hpre Hlen].
  split; [exact Hpre|]. split; [exact Hlen|].
  intros e. unfold retrieveBindings. rewrite !retrieveBindings_loop_filter.
  destruct Hpre as [k ->]. rewrite filter_app. by apply prefix_app_r.
Qed.

(** X6: in every state reached from the initial one by [addBinding] calls,
    no two Gesture objects hold the same id, and every id held is below
    [numGestures]. *)
Theorem X6_gesture_ids_unique (cs : list BindCall) :
  idsInjective (bindRun initialState cs)
  ∧ idsBelowCounter (bindRun initialState cs).
Proof.
  assert (Hinit : idsBelowCounter initialState ∧ idsInjective initialState).
  { split; intros g; intros; unfold getId in *; simpl in *;
      by rewrite lookup_empty in *. }
  assert (Hrun : ∀ cs st, idsBelowCounter st ∧ idsInjective st →
                          idsBelowCounter (bindRun st cs)
                          ∧ idsInjective (bindRun st cs)).
  { clear. induction cs as [|c cs IH]; intros st Hst; [exact Hst|].
    rewrite bindRun_cons. apply IH. by apply bindStep_ids. }
  destruct (Hrun cs initialState Hinit). by split.
Qed.

(** X7: in every state reached from the initial one by [addBinding] calls,
    the registered listeners correspond one to one, in order, to the stored
    Bindings: same element, same handler, same capture flag. *)
Theorem X7_one_listener_per_binding (cs : list BindCall) :
  listenerKey <$> listeners (bindRun initialState cs)
  = bindingKey <$> bindings (bindRun initialState cs).
Proof.
  assert (Hrun : ∀ cs st,
            listenerKey <$> listeners st = bindingKey <$> bindings st →
            listenerKey <$> listeners (bindRun st cs)
            = bindingKey <$> bindings (bindRun st cs)).
  { clear. induction cs as [|c cs IH]; intros st Hst; [exact Hst|].
    rewrite bindRun_cons. apply IH. by apply bindStep_listeners. }
  by apply Hrun.
Qed.

(** * Further properties of the contact tracker *)

Section TrackerMore.

Variable normalizeEvent : string → Phase.

Implicit Types (st : State) (event : Event) (l : list Input).

Lemma state_ext st st' :
  inputs st = inputs st' → registryOf st = registryOf st' → st = st'.
Proof.
  destruct st, st'; unfold registryOf; simpl. intros -> [= -> -> -> ->].
  reflexivity.
Qed.

Lemma countActive_filter l :
  countActive l 0 = length (filter isActive l).
Proof.
  induction l as [|i l IH]; [reflexivity|].
  simpl. rewrite filter_cons. unfold isActive at 1.
  destruct (decide (s_type (current i) ≠ End)).
  - rewrite countActive_acc, IH. reflexivity.
  - exact IH.
Qed.

Lemma countActive_app l1 l2 :
  countActive (l1 ++ l2) 0 = countActive l1 0 + countActive l2 0.
Proof. rewrite !countActive_filter, filter_app, length_app. reflexivity. Qed.

(** Ending an active record lowers the count by one. *)
Lemma countActive_insert_ended l : ∀ (k : nat) (i x : Input),
  l !! k = Some i → isActive i → ¬ isActive x →
  countActive (<[k := x]> l) 0 + 1 = countActive l 0.
Proof.
  unfold isActive.
  induction l as [|a l IH]; intros k i x Hk Hi Hx; [discriminate|].
  destruct k as [|k]; simpl in Hk |- *.
  - injection Hk as ->.
    destruct (decide (s_type (current x) ≠ End)); [contradiction|].
    destruct (decide (s_type (current i) ≠ End)); [|contradiction].
    rewrite (countActive_acc l 1). lia.
  - specialize (IH k i x Hk Hi Hx).
    destruct (decide (s_type (current a) ≠ End)); [|exact IH].
    rewrite (countActive_acc l 1), (countActive_acc (<[k:=x]> l) 1). lia.
Qed.

(** The loop reads and writes [inputs] only. *)
Lemma changedLoop_registry event (changed : list Touch) : ∀ st,
  registryOf (snd (changedLoop normalizeEvent event changed st))
  = registryOf st.
Proof.
  induction changed as [|t rest IH]; intros st; [reflexivity|].
  simpl. destruct (is_start normalizeEvent event);
    destruct (inputs_at (inputs st) (t_identifier t));
    try reflexivity; by rewrite IH.
Qed.

Lemma changedLoop_inputs_only event (changed : list Touch) : ∀ st st',
  inputs st = inputs st' →
  fst (changedLoop normalizeEvent event changed st)
  = fst (changedLoop normalizeEvent event changed st')
  ∧ inputs (snd (changedLoop normalizeEvent event changed st))
    = inputs (snd (changedLoop normalizeEvent event changed st')).
Proof.
  induction changed as [|t rest IH]; intros st st' Heq; [by split|].
  simpl. rewrite <- Heq.
  destruct (is_start normalizeEvent event);
    destruct (inputs_at (inputs st) (t_identifier t));
    try (by split); apply IH; simpl; by rewrite ?Heq.
Qed.

(** How the loop can end: an early [return false] after a reset, or a
    normal end with every earlier record still in place, by identifier. *)
Lemma changedLoop_outcome event (changed : list Touch) : ∀ st,
  (fst (changedLoop normalizeEvent event changed st) = Some false
   ∧ inputs (snd (changedLoop normalizeEvent event changed st)) = [])
  ∨ (fst (changedLoop normalizeEvent event changed st) = None
     ∧ identifier <$> inputs st
       `prefix_of`
       identifier <$> inputs (snd (changedLoop normalizeEvent event changed st))).
Proof.
  induction changed as [|t rest IH]; intros st; [by right|].
  simpl. destruct (is_start normalizeEvent event).
  - destruct (inputs_at (inputs st) (t_identifier t)); [by left|].
    destruct (IH (set_inputs st
                    (inputs st
                     ++ [newInput normalizeEvent event
                           (Some (t_identifier t))])))
      as [Hreset | [Hend Hpre]]; [by left|].
    right. split; [exact Hend|]. simpl in Hpre. rewrite fmap_app in Hpre.
    etrans; [|exact Hpre]. by apply prefix_app_r.
  - destruct (inputs_at (inputs st) (t_identifier t)) as [i|] eqn:Hat;
      [|apply IH].
    apply inputs_at_Some in Hat.
    destruct (IH (set_inputs st
                    (<[Z.to_nat (t_identifier t) :=
                         update normalizeEvent i event
                           (Some (t_identifier t))]> (inputs st))))
      as [Hreset | [Hend Hpre]]; [by left|].
    right. split; [exact Hend|]. simpl in Hpre.
    by rewrite (insert_identifiers normalizeEvent _ _ _ _ _ Hat) in Hpre.
Qed.

(** A start batch that runs to its end has appended one record per changed
    touch, in order. *)
Lemma changedLoop_start_appends event (changed : list Touch) :
  is_start normalizeEvent event = true →
  ∀ st,
    fst (changedLoop normalizeEvent event changed st) = None →
    inputs (snd (changedLoop normalizeEvent event changed st))
    = inputs st
      ++ ((λ t, newInput normalizeEvent event (Some (t_identifier t)))
            <$> changed).
Proof.
  intros Hstart. induction changed as [|t rest IH]; intros st.
  - simpl. by rewrite app_nil_r.
  - simpl. rewrite Hstart.
    destruct (inputs_at (inputs st) (t_identifier t)); [discriminate|].
    intros Hend. rewrite (IH _ Hend). simpl. by rewrite <- app_assoc.
Qed.

Lemma updateInputs_registry st event :
  registryOf (snd (updateInputs normalizeEvent st event)) = registryOf st.
Proof.
  unfold updateInputs.
  destruct (e_touches event) as [touches|].
  - destruct (e_targetTouches event) as [targetTouches|]; [|reflexivity].
    destruct (negb _); [reflexivity|].
    pose proof (changedLoop_registry event
                  (default [] (e_changedTouches event)) st) as Hreg.
    destruct (changedLoop _ _ _ _) as [[b|] st']; exact Hreg.
  - destruct (is_start normalizeEvent event); [reflexivity|].
    destruct (inputs st !! 0); reflexivity.
Qed.

Lemma updateInputs_inputs_only st st' event :
  inputs st = inputs st' →
  fst (updateInputs normalizeEvent st event)
  = fst (updateInputs normalizeEvent st' event)
  ∧ inputs (snd (updateInputs normalizeEvent st event))
    = inputs (snd (updateInputs normalizeEvent st' event)).
Proof.
  intros Heq. unfold updateInputs.
  destruct (e_touches event) as [touches|].
  - destruct (e_targetTouches event) as [targetTouches|]; [|by split].
    destruct (negb _); [by split|].
    pose proof (changedLoop_inputs_only event
                  (default [] (e_changedTouches event)) st st' Heq)
      as [Hfst Hsnd].
    destruct (changedLoop _ _ _ st) as [[b|] st1];
      destruct (changedLoop _ _ _ st') as [[b'|] st1'];
      simpl in Hfst, Hsnd; try discriminate; split; simpl; congruence.
  - rewrite <- Heq. destruct (is_start normalizeEvent event).
    + split; simpl; congruence.
    + destruct (inputs st !! 0); split; simpl; congruence.
Qed.

Lemma trackerStep_registry st (c : TrackerCall) :
  registryOf (trackerStep normalizeEvent st c) = registryOf st.
Proof. destruct c; [apply updateInputs_registry | reflexivity]. Qed.

Lemma trackerStep_inputs_only st st' (c : TrackerCall) :
  inputs st = inputs st' →
  inputs (trackerStep normalizeEvent st c)
  = inputs (trackerStep normalizeEvent st' c).
Proof.
  intros Heq. destruct c; [|reflexivity].
  by apply updateInputs_inputs_only.
Qed.

End TrackerMore.

Section Independence.

Variable normalizeEvent : string → Phase.

Lemma bindStep_registry_only (st st' : State) (c : BindCall) :
  registryOf st = registryOf st' →
  registryOf (bindStep st c) = registryOf (bindStep st' c).
Proof.
  destruct st, st'; unfold registryOf; simpl. intros [= -> -> -> ->].
  destruct c as [e v h cap once]. unfold bindStep, addBinding; simpl.
  destruct v as [s|g| | | | |]; try reflexivity.
  destruct (registeredGestures_get s); reflexivity.
Qed.

Lemma bindStep_trackerStep (st : State) (b : BindCall) (t : TrackerCall) :
  bindStep (trackerStep normalizeEvent st t) b
  = trackerStep normalizeEvent (bindStep st b) t.
Proof.
  apply state_ext.
  - rewrite bindStep_inputs. apply trackerStep_inputs_only.
    by rewrite bindStep_inputs.
  - rewrite trackerStep_registry. apply bindStep_registry_only.
    apply trackerStep_registry.
Qed.

Lemma bindStep_trackerRun (ts : list TrackerCall) : ∀ (st : State) (b : BindCall),
  bindStep (trackerRun normalizeEvent st ts) b
  = trackerRun normalizeEvent (bindStep st b) ts.
Proof.
  induction ts as [|t ts IH]; intros st b; [reflexivity|].
  unfold trackerRun in *. simpl. rewrite IH. f_equal.
  apply bindStep_trackerStep.
Qed.

End Independence.

(** X8: the registry and the tracker do not interfere. Tracker calls leave
    the bindings, the id counter, the ids and the listeners as they are,
    [addBinding] calls leave the contact records as they are, and a
    sequence of [addBinding] calls commutes with a sequence of tracker
    calls. *)
Theorem X8_registry_and_tracker_independent
    (normalizeEvent : string → Phase) (st : State)
    (bs : list BindCall) (ts : list TrackerCall) :
  registryOf (trackerRun normalizeEvent st ts) = registryOf st
  ∧ inputs (bindRun st bs) = inputs st
  ∧ bindRun (trackerRun normalizeEvent st ts) bs
    = trackerRun normalizeEvent (bindRun st bs) ts.
Proof.
  split; [|split].
  - revert st. induction ts as [|t ts IH]; intros st; [reflexivity|].
    unfold trackerRun in *. simpl. rewrite IH. apply trackerStep_registry.
  - revert st. induction bs as [|b bs IH]; intros st; [reflexivity|].
    rewrite bindRun_cons, IH. apply bindStep_inputs.
  - revert st. induction bs as [|b bs IH]; intros st; [reflexivity|].
    rewrite !bindRun_cons, <- IH. f_equal. apply bindStep_trackerRun.
Qed.

(** X9: [numActiveInputs] is the number of contact records whose current
    phase is not end; it never exceeds the number of records, and it is 0
    exactly when every record has ended (in particular when there is
    none). *)
Theorem X9_numActiveInputs_counts_unended (st : State) :
  numActiveInputs st = length (filter isActive (inputs st))
  ∧ numActiveInputs st ≤ length (inputs st)
  ∧ (numActiveInputs st = 0
     ↔ ∀ i, i ∈ inputs st → s_type (current i) = End).
Proof.
  unfold numActiveInputs. rewrite countActive_filter.
  split; [reflexivity|]. split; [apply length_filter|].
  rewrite length_zero_iff_nil. split.
  - intros Hnil i Hi. destruct (decide (s_type (current i) = End)); [done|].
    by destruct (filter_nil_not_elem_of isActive (inputs st) i Hnil).
  - intros Hended. induction (inputs st) as [|i l IH]; [reflexivity|].
    rewrite filter_cons_False.
    + apply IH. intros j Hj. apply Hended. by right.
    + unfold isActive. intros Hact. apply Hact, Hended. left.
Qed.

(** X10: [updateInputs] throws in exactly two situations: [touches] is
    present and [targetTouches] is not, or [touches] is absent, the phase is
    not start and there is no contact record. Whenever it throws, the state
    is as it was. *)
Theorem X10_updateInputs_throws_iff
    (normalizeEvent : string → Phase) (st : State) (event : Event) :
  (fst (updateInputs normalizeEvent st event) = Throw TypeError
   ↔ (is_Some (e_touches event) ∧ e_targetTouches event = None)
     ∨ (e_touches event = None
        ∧ normalizeEvent (e_type event) ≠ Start
        ∧ inputs st = []))
  ∧ (fst (updateInputs normalizeEvent st event) = Throw TypeError →
     snd (updateInputs normalizeEvent st event) = st).
Proof.
  unfold updateInputs, is_start.
  destruct (e_touches event) as [touches|].
  - destruct (e_targetTouches event) as [targetTouches|].
    + assert (Hno : ∀ r : Completion bool * State,
                (r = (Normal false, resetInputs st)
                 ∨ ∃ b st', r = (Normal b, st')) →
                fst r ≠ Throw TypeError).
      { intros r [-> | (b & st' & ->)]; discriminate. }
      match goal with
      | |- (fst ?r = _ ↔ _) ∧ _ =>
          assert (Hr : fst r ≠ Throw TypeError)
      end.
      { apply Hno. destruct (negb _); [by left|]. right.
        destruct (changedLoop _ _ _ _) as [[b|] st']; by eauto. }
      split; [|done]. split; [done|].
      intros [[_ [=]] | [[=] _]].
    + split; [|done]. split; [|done]. intros _. left. by split.
  - case_bool_decide as Hphase.
    + split; [|discriminate]. split; [discriminate|].
      intros [[[? [=]] _] | (_ & Hne & _)]. contradiction.
    + destruct (inputs st) as [|i l] eqn:Hinputs; simpl.
      * split; [|done]. split; [|done]. intros _. right. by repeat split.
      * split; [|discriminate]. split; [discriminate|].
        intros [[[? [=]] _] | (_ & _ & [=])].
Qed.

(** X11: an answer [false] always comes with a cleared tracker: whenever
    [updateInputs] returns [false], no contact record is left, the active
    count is 0 and the rest of the state is untouched. *)
Theorem X11_false_means_cleared
    (normalizeEvent : string → Phase) (st : State) (event : Event) :
  fst (updateInputs normalizeEvent st event) = Normal false →
  snd (updateInputs normalizeEvent st event) = resetInputs st
  ∧ numActiveInputs (snd (updateInputs normalizeEvent st event)) = 0.
Proof.
  intros Hfalse.
  assert (Hreset : snd (updateInputs normalizeEvent st event)
                   = resetInputs st); [|by rewrite Hreset].
  revert Hfalse. unfold updateInputs.
  destruct (e_touches event) as [touches|].
  - destruct (e_targetTouches event) as [targetTouches|]; [|discriminate].
    destruct (negb _); [reflexivity|].
    pose proof (changedLoop_registry normalizeEvent event
                  (default [] (e_changedTouches event)) st) as Hreg.
    pose proof (changedLoop_outcome normalizeEvent event
                  (default [] (e_changedTouches event)) st) as Hout.
    destruct (changedLoop _ _ _ _) as [[b|] st']; [|discriminate].
    simpl in *. intros _.
    destruct Hout as [[_ Hempty] | [[=] _]].
    by apply state_ext.
  - destruct (is_start normalizeEvent event); [discriminate|].
    destruct (inputs st !! 0); discriminate.
Qed.

Lemma X11_false_means_cleared_witness :
  let start := touchEvent "touchstart" [0%Z; 1%Z] [0%Z; 1%Z] [0%Z; 1%Z] in
  let st := snd (updateInputs normalizeEvent_dom initialState start) in
  let again := touchEvent "touchstart" [0%Z; 1%Z] [0%Z; 1%Z] [1%Z] in
  length (inputs st) = 2
  ∧ fst (updateInputs normalizeEvent_dom st again) = Normal false
  ∧ inputs (snd (updateInputs normalizeEvent_dom st again)) = [].
Proof.
  intros start st again.
  assert (Hfalse : fst (updateInputs normalizeEvent_dom st again)
                   = Normal false) by reflexivity.
  split; [reflexivity|]. split; [exact Hfalse|].
  destruct (X11_false_means_cleared normalizeEvent_dom st again Hfalse)
    as [Hreset _].
  rewrite Hreset. reflexivity.
Defined.

(** X12: an answer [true] never comes with a lost record: the identifiers of
    the records before the call are, in order, the first identifiers after
    it; when the phase is not start the list of identifiers is exactly the
    same, so no record was added either. *)
Theorem X12_true_keeps_records
    (normalizeEvent : string → Phase) (st : State) (event : Event) :
  fst (updateInputs normalizeEvent st event) = Normal true →
  identifier <$> inputs st
  `prefix_of` identifier <$> inputs (snd (updateInputs normalizeEvent st event))
  ∧ (normalizeEvent (e_type event) ≠ Start →
     identifier <$> inputs (snd (updateInputs normalizeEvent st event))
     = identifier <$> inputs st).
Proof.
  unfold updateInputs.
  destruct (e_touches event) as [touches|].
  - destruct (e_targetTouches event) as [targetTouches|]; [|discriminate].
    destruct (negb _); [discriminate|].
    pose proof (changedLoop_outcome normalizeEvent event
                  (default [] (e_changedTouches event)) st) as Hout.
    pose proof (changedLoop_not_start normalizeEvent event
                  (default [] (e_changedTouches event))) as Hmove.
    destruct (changedLoop _ _ _ _) as [[b|] st'] eqn:Hloop; simpl in *.
    + destruct Hout as [[[= ->] _] | [[=] _]]. discriminate.
    + intros _. destruct Hout as [[[=] _] | [_ Hpre]].
      split; [exact Hpre|]. intros Hphase.
      destruct (Hmove (is_start_false _ _ Hphase) st)
        as (l' & Hrun & Hids & _).
      rewrite Hloop in Hrun. injection Hrun as ->. exact Hids.
  - unfold is_start. case_bool_decide as Hphase.
    + intros _. simpl. rewrite fmap_app.
      split; [by apply prefix_app_r | done].
    + destruct (inputs st !! 0) as [i|] eqn:Hfirst; [|discriminate].
      intros _. simpl.
      rewrite (insert_identifiers normalizeEvent _ _ _ _ _ Hfirst).
      split; done.
Qed.

Lemma X12_true_keeps_records_witness :
  let start := touchEvent "touchstart" [0%Z; 1%Z] [0%Z; 1%Z] [0%Z; 1%Z] in
  let st := snd (updateInputs normalizeEvent_dom initialState start) in
  let move := touchEvent "touchmove" [0%Z; 1%Z] [0%Z; 1%Z] [1%Z; 0%Z] in
  fst (updateInputs normalizeEvent_dom st move) = Normal true
  ∧ normalizeEvent_dom (e_type move) ≠ Start
  ∧ identifier <$> inputs (snd (updateInputs normalizeEvent_dom st move))
    = [0%Z; 1%Z].
Proof.
  intros start st move.
  assert (Htrue : fst (updateInputs normalizeEvent_dom st move) = Normal true)
    by reflexivity.
  assert (Hphase : normalizeEvent_dom (e_type move) ≠ Start)
    by (vm_compute; discriminate).
  split; [exact Htrue|]. split; [exact Hphase|].
  destruct (X12_true_keeps_records normalizeEvent_dom st move Htrue)
    as [_ Hsame].
  rewrite (Hsame Hphase). reflexivity.
Defined.

(** X13: a start event on the touch path that is answered by [true] has
    appended one record per changed touch, in the order of [changedTouches],
    each with the identifier of its touch and in the start phase; the
    active count has grown by the number of changed touches. *)
Theorem X13_start_batch_appends
    (normalizeEvent : string → Phase) (st : State) (event : Event)
    (touches : list Touch) :
  normalizeEvent (e_type event) = Start →
  e_touches event = Some touches →
  fst (updateInputs normalizeEvent st event) = Normal true →
  let changed := default [] (e_changedTouches event) in
  inputs (snd (updateInputs normalizeEvent st event))
  = inputs st
    ++ ((λ t, newInput normalizeEvent event (Some (t_identifier t)))
          <$> changed)
  ∧ identifier <$> inputs (snd (updateInputs normalizeEvent st event))
    = (identifier <$> inputs st) ++ (t_identifier <$> changed)
  ∧ numActiveInputs (snd (updateInputs normalizeEvent st event))
    = numActiveInputs st + length changed.
Proof.
  intros Hphase Htouches Htrue changed.
  assert (Hinputs : inputs (snd (updateInputs normalizeEvent st event))
                    = inputs st
                      ++ ((λ t, newInput normalizeEvent event
                                  (Some (t_identifier t))) <$> changed)).
  { revert Htrue. unfold updateInputs. rewrite Htouches.
    destruct (e_targetTouches event) as [targetTouches|]; [|discriminate].
    destruct (negb _); [discriminate|].
    pose proof (changedLoop_outcome normalizeEvent event changed st) as Hout.
    pose proof (changedLoop_start_appends normalizeEvent event changed
                  (is_start_true _ _ Hphase) st) as Happ.
    fold changed.
    destruct (changedLoop _ _ _ _) as [[b|] st']; simpl in *.
    - destruct Hout as [[[= ->] _] | [[=] _]]. discriminate.
    - intros _. by apply Happ. }
  rewrite Hinputs. split; [reflexivity|]. split.
  - rewrite fmap_app, <- list_fmap_compose. reflexivity.
  - unfold numActiveInputs. rewrite Hinputs, countActive_app. f_equal.
    rewrite countActive_filter.
    clear -Hphase. induction changed as [|t rest IH]; [reflexivity|].
    rewrite fmap_cons, filter_cons_True; [simpl; by rewrite IH|].
    unfold isActive. simpl. rewrite Hphase. discriminate.
Qed.

Lemma X13_start_batch_appends_witness :
  let first := touchEvent "touchstart" [0%Z] [0%Z] [0%Z] in
  let st := snd (updateInputs normalizeEvent_dom initialState first) in
  let more := touchEvent "touchstart" [0%Z; 1%Z; 2%Z] [0%Z; 1%Z; 2%Z]
                [1%Z; 2%Z] in
  normalizeEvent_dom (e_type more) = Start
  ∧ fst (updateInputs normalizeEvent_dom st more) = Normal true
  ∧ identifier <$> inputs (snd (updateInputs normalizeEvent_dom st more))
    = [0%Z; 1%Z; 2%Z]
  ∧ numActiveInputs (snd (updateInputs normalizeEvent_dom st more)) = 3.
Proof.
  intros first st more.
  assert (Htrue : fst (updateInputs normalizeEvent_dom st more) = Normal true)
    by reflexivity.
  split; [reflexivity|]. split; [exact Htrue|].
  destruct (X13_start_batch_appends normalizeEvent_dom st more
              (touchAt <$> [0%Z; 1%Z; 2%Z]) eq_refl eq_refl Htrue)
    as (_ & Hids & Hcount).
  split; [exact Hids | exact Hcount].
Defined.

(** X14: when every record sits at the array position equal to its
    identifier, identifiers are pairwise different, and a start event whose
    first changed touch bears the identifier of an existing record is
    detected: the tracker is cleared and [false] is returned. *)
Theorem X14_duplicate_start_detected_when_positioned
    (normalizeEvent : string → Phase) (st : State) (event : Event)
    (touches targetTouches rest : list Touch) (t : Touch) (r : Input) :
  positioned (inputs st) →
  normalizeEvent (e_type event) = Start →
  e_touches event = Some touches →
  e_targetTouches event = Some targetTouches →
  length touches = length targetTouches →
  e_changedTouches event = Some (t :: rest) →
  r ∈ inputs st →
  identifier r = t_identifier t →
  NoDup (identifier <$> inputs st)
  ∧ distinctActive (inputs st)
  ∧ updateInputs normalizeEvent st event = (Normal false, resetInputs st).
Proof.
  intros Hpos Hphase Htouches Htarget Hlen Hchanged Hr Hid.
  assert (Hinj : ∀ j k a b, inputs st !! j = Some a → inputs st !! k = Some b →
                            identifier a = identifier b → j = k).
  { intros j k a b Hj Hk Heq.
    rewrite (Hpos j a Hj), (Hpos k b Hk) in Heq. lia. }
  split; [|split].
  - apply NoDup_alt. intros j k x Hj Hk.
    rewrite list_lookup_fmap in Hj, Hk.
    destruct (inputs st !! j) as [a|] eqn:Ha; [|discriminate].
    destruct (inputs st !! k) as [b|] eqn:Hb; [|discriminate].
    simpl in Hj, Hk. apply (Hinj j k a b Ha Hb). congruence.
  - intros j k a b Hne Hj Hk _ _ Heq. apply Hne. by apply (Hinj j k a b).
  - apply list_elem_of_lookup in Hr as [k Hk].
    assert (Hat : inputs_at (inputs st) (t_identifier t) = Some r).
    { unfold inputs_at. rewrite <- Hid, (Hpos k r Hk).
      destruct (0 <=? Z.of_nat k)%Z eqn:Hsign;
        [by rewrite Nat2Z.id | apply Z.leb_gt in Hsign; lia]. }
    rewrite (updateInputs_match normalizeEvent st event touches targetTouches
               Htouches Htarget Hlen), Hchanged.
    simpl default.
    by rewrite (changedLoop_start_hit normalizeEvent event t rest st r
                  (is_start_true _ _ Hphase) Hat).
Qed.

Lemma X14_duplicate_start_detected_when_positioned_witness :
  let start := touchEvent "touchstart" [0%Z; 1%Z] [0%Z; 1%Z] [0%Z; 1%Z] in
  let st := snd (updateInputs normalizeEvent_dom initialState start) in
  let again := touchEvent "touchstart" [0%Z; 1%Z] [0%Z; 1%Z] [1%Z] in
  positioned (inputs st)
  ∧ identifier <$> inputs st = [0%Z; 1%Z]
  ∧ updateInputs normalizeEvent_dom st again = (Normal false, resetInputs st).
Proof.
  intros start st again.
  assert (Hpos : positioned (inputs st)).
  { intros k r. destruct k as [|[|k]]; simpl; intros [= <-]; reflexivity. }
  split; [exact Hpos|]. split; [reflexivity|].
  assert (Hin : newInput normalizeEvent_dom start (Some 1%Z) ∈ inputs st)
    by (right; left).
  exact (proj2 (proj2
           (X14_duplicate_start_detected_when_positioned normalizeEvent_dom
              st again (touchAt <$> [0%Z; 1%Z]) (touchAt <$> [0%Z; 1%Z]) []
              (touchAt 1%Z) _ Hpos eq_refl eq_refl eq_refl eq_refl eq_refl
              Hin eq_refl))).
Defined.

(** X15: an end event whose single changed touch selects an active record
    is answered by [true], replaces the current snapshot of that record and
    of no other, and lowers the active count by exactly one. *)
Theorem X15_end_event_deactivates
    (normalizeEvent : string → Phase) (st : State) (event : Event)
    (touches targetTouches : list Touch) (t : Touch) (i : Input) :
  normalizeEvent (e_type event) = End →
  e_touches event = Some touches →
  e_targetTouches event = Some targetTouches →
  length touches = length targetTouches →
  e_changedTouches event = Some [t] →
  inputs_at (inputs st) (t_identifier t) = Some i →
  isActive i →
  let k := Z.to_nat (t_identifier t) in
  let i' := update normalizeEvent i event (Some (t_identifier t)) in
  updateInputs normalizeEvent st event
  = (Normal true, set_inputs st (<[k := i']> (inputs st)))
  ∧ <[k := i']> (inputs st) !! k = Some i'
  ∧ (∀ j, j ≠ k → <[k := i']> (inputs st) !! j = inputs st !! j)
  ∧ numActiveInputs (snd (updateInputs normalizeEvent st event)) + 1
    = numActiveInputs st.
Proof.
  intros Hphase Htouches Htarget Hlen Hchanged Hat Hactive k i'.
  assert (Hns : is_start normalizeEvent event = false)
    by (apply is_start_false; congruence).
  assert (Hrun : updateInputs normalizeEvent st event
                 = (Normal true, set_inputs st (<[k := i']> (inputs st)))).
  { rewrite (updateInputs_match normalizeEvent st event touches targetTouches
               Htouches Htarget Hlen), Hchanged.
    simpl. by rewrite Hns, Hat. }
  pose proof (inputs_at_Some _ _ _ Hat) as Hk. fold k in Hk.
  rewrite Hrun. split; [reflexivity|]. split; [|split].
  - apply list_lookup_insert_eq. by eapply lookup_lt_Some.
  - intros j Hj. by apply list_lookup_insert_ne.
  - unfold numActiveInputs. simpl.
    apply (countActive_insert_ended (inputs st) k i i' Hk Hactive).
    unfold isActive, i'. simpl. rewrite Hphase. by intros Hne.
Qed.

Lemma X15_end_event_deactivates_witness :
  let start := touchEvent "touchstart" [0%Z; 1%Z] [0%Z; 1%Z] [0%Z; 1%Z] in
  let st := snd (updateInputs normalizeEvent_dom initialState start) in
  let lift := touchEvent "touchend" [0%Z] [0%Z] [1%Z] in
  numActiveInputs st = 2
  ∧ normalizeEvent_dom (e_type lift) = End
  ∧ fst (updateInputs normalizeEvent_dom st lift) = Normal true
  ∧ numActiveInputs (snd (updateInputs normalizeEvent_dom st lift)) + 1 = 2.
Proof.
  intros start st lift.
  assert (Hactive : isActive (newInput normalizeEvent_dom start (Some 1%Z)))
    by (vm_compute; discriminate).
  split; [reflexivity|]. split; [reflexivity|].
  destruct (X15_end_event_deactivates normalizeEvent_dom st lift
              (touchAt <$> [0%Z]) (touchAt <$> [0%Z]) (touchAt 1%Z) _
              eq_refl eq_refl eq_refl eq_refl eq_refl eq_refl Hactive)
    as (Hrun & _ & _ & Hcount).
  split; [by rewrite Hrun | exact Hcount].
Defined.

Section SinglePointer.

Variable normalizeEvent : string → Phase.

Lemma updateInputs_pointer_start (st : State) (event : Event) :
  e_touches event = None →
  normalizeEvent (e_type event) = Start →
  updateInputs normalizeEvent st event
  = (Normal true,
     set_inputs st (inputs st ++ [newInput normalizeEvent event None])).
Proof.
  intros Htouches Hphase. unfold updateInputs.
  by rewrite Htouches, (is_start_true _ _ Hphase).
Qed.

Lemma updateInputs_pointer_update (st : State) (event : Event)
    (i : Input) (l : list Input) :
  e_touches event = None →
  normalizeEvent (e_type event) ≠ Start →
  inputs st = i :: l →
  updateInputs normalizeEvent st event
  = (Normal true, set_inputs st (update normalizeEvent i event None :: l)).
Proof.
  intros Htouches Hphase Hinputs. unfold updateInputs.
  by rewrite Htouches, (is_start_false _ _ Hphase), Hinputs.
Qed.

Lemma trackerRun_cons (st : State) (c : TrackerCall) (cs : list TrackerCall) :
  trackerRun normalizeEvent st (c :: cs)
  = trackerRun normalizeEvent (trackerStep normalizeEvent st c) cs.
Proof. reflexivity. Qed.

End SinglePointer.

(** X16: on the single-pointer path no start is ever refused: a run of
    start events without [touches] appends one record per event, each with
    identifier 0, whatever records exist already, and raises the active
    count by the number of events. *)
Theorem X16_single_pointer_starts_accumulate
    (normalizeEvent : string → Phase) (events : list Event) (st : State) :
  Forall (λ event, e_touches event = None
                   ∧ normalizeEvent (e_type event) = Start) events →
  let st' := trackerRun normalizeEvent st (CallUpdate <$> events) in
  inputs st'
  = inputs st ++ ((λ event, newInput normalizeEvent event None) <$> events)
  ∧ identifier <$> inputs st'
    = (identifier <$> inputs st) ++ replicate (length events) 0%Z
  ∧ numActiveInputs st' = numActiveInputs st + length events.
Proof.
  intros Hall. simpl.
  assert (Hinputs : inputs (trackerRun normalizeEvent st (CallUpdate <$> events))
                    = inputs st
                      ++ ((λ event, newInput normalizeEvent event None)
                            <$> events)).
  { revert st. induction Hall as [|event events [Htouches Hphase] _ IH];
      intros st; [by rewrite app_nil_r|].
    rewrite fmap_cons, trackerRun_cons, IH. unfold trackerStep.
    rewrite (updateInputs_pointer_start normalizeEvent st event Htouches
               Hphase).
    simpl. by rewrite <- app_assoc. }
  split; [exact Hinputs|]. split.
  - rewrite Hinputs, fmap_app. f_equal. clear.
    induction events as [|event events IH]; [reflexivity|].
    rewrite !fmap_cons. simpl. f_equal. exact IH.
  - unfold numActiveInputs. rewrite Hinputs, countActive_app. f_equal.
    rewrite countActive_filter. clear -Hall.
    induction Hall as [|event events [_ Hphase] _ IH]; [reflexivity|].
    rewrite fmap_cons, filter_cons_True; [simpl; by rewrite IH|].
    unfold isActive. simpl. rewrite Hphase. discriminate.
Qed.

Lemma X16_single_pointer_starts_accumulate_witness :
  let down := mouseEvent "mousedown" in
  let st := trackerRun normalizeEvent_dom initialState
              (CallUpdate <$> [down; down; down]) in
  e_touches down = None
  ∧ normalizeEvent_dom (e_type down) = Start
  ∧ identifier <$> inputs st = [0%Z; 0%Z; 0%Z]
  ∧ numActiveInputs st = 3.
Proof.
  intros down st.
  assert (Hall : Forall (λ event, e_touches event = None
                                  ∧ normalizeEvent_dom (e_type event) = Start)
                   [down; down; down])
    by (repeat constructor).
  split; [reflexivity|]. split; [reflexivity|].
  destruct (X16_single_pointer_starts_accumulate normalizeEvent_dom
              [down; down; down] initialState Hall) as (_ & Hids & Hcount).
  split; [exact Hids | exact Hcount].
Defined.

(** X17: once a record exists, a run of single-pointer events that are not
    starts is processed without exception and touches the first record
    only: the records after the first are unchanged, no record is added or
    removed, identifiers stay, and the next such event is again answered by
    [true]. *)
Theorem X17_single_pointer_updates_first_record
    (normalizeEvent : string → Phase) (events : list Event) (st : State) :
  Forall (λ event, e_touches event = None
                   ∧ normalizeEvent (e_type event) ≠ Start) events →
  inputs st ≠ [] →
  let st' := trackerRun normalizeEvent st (CallUpdate <$> events) in
  tail (inputs st') = tail (inputs st)
  ∧ identifier <$> inputs st' = identifier <$> inputs st
  ∧ (∀ event, e_touches event = None →
              normalizeEvent (e_type event) ≠ Start →
              fst (updateInputs normalizeEvent st' event) = Normal true).
Proof.
  intros Hall Hne. simpl.
  assert (Hrun : tail (inputs (trackerRun normalizeEvent st
                                 (CallUpdate <$> events)))
                 = tail (inputs st)
                 ∧ identifier <$> inputs (trackerRun normalizeEvent st
                                            (CallUpdate <$> events))
                   = identifier <$> inputs st).
  { revert st Hne. induction Hall as [|event events [Htouches Hphase] _ IH];
      intros st Hne; [by split|].
    destruct (inputs st) as [|i l] eqn:Hinputs; [contradiction|].
    rewrite fmap_cons, trackerRun_cons. unfold trackerStep.
    rewrite (updateInputs_pointer_update normalizeEvent st event i l Htouches
               Hphase Hinputs).
    simpl snd.
    destruct (IH (set_inputs st (update normalizeEvent i event None :: l)))
      as [Htail Hids]; [discriminate|].
    rewrite Htail, Hids. by split. }
  destruct Hrun as [Htail Hids]. split; [exact Htail|]. split; [exact Hids|].
  intros event Htouches Hphase.
  destruct (inputs (trackerRun normalizeEvent st (CallUpdate <$> events)))
    as [|i l] eqn:Hinputs.
  - destruct (inputs st); [contradiction | discriminate].
  - by rewrite (updateInputs_pointer_update normalizeEvent _ event i l
                  Htouches Hphase Hinputs).
Qed.

Lemma X17_single_pointer_updates_first_record_witness :
  let st := trackerRun normalizeEvent_dom initialState
              (CallUpdate <$> [mouseEvent "mousedown"; mouseEvent "mousedown"])
  in
  let events := [mouseEvent "mousemove"; mouseEvent "mouseup"] in
  let st' := trackerRun normalizeEvent_dom st (CallUpdate <$> events) in
  inputs st ≠ []
  ∧ tail (inputs st') = tail (inputs st)
  ∧ numActiveInputs st' = 1
  ∧ fst (updateInputs normalizeEvent_dom st' (mouseEvent "mousemove"))
    = Normal true.
Proof.
  intros st events st'.
  assert (Hne : inputs st ≠ []) by discriminate.
  assert (Hmove : ∀ type, normalizeEvent_dom type = Move ∨
                          normalizeEvent_dom type = End →
                          normalizeEvent_dom type ≠ Start)
    by (intros type [-> | ->]; discriminate).
  assert (Hall : Forall (λ event, e_touches event = None
                                  ∧ normalizeEvent_dom (e_type event) ≠ Start)
                   events).
  { repeat constructor; apply Hmove; [by left | by right]. }
  split; [exact Hne|].
  destruct (X17_single_pointer_updates_first_record normalizeEvent_dom events
              st Hall Hne) as (Htail & _ & Hnext).
  split; [exact Htail|]. split; [reflexivity|].
  apply Hnext; [reflexivity|]. apply Hmove. by left.
Defined.

(** X18: on the touch path, with [touches] and [targetTouches] of equal
    length, an event whose [changedTouches] is absent or empty is answered
    by [true] and changes nothing, whatever its phase. *)
Theorem X18_no_changed_touch_no_effect
    (normalizeEvent : string → Phase) (st : State) (event : Event)
    (touches targetTouches : list Touch) :
  e_touches event = Some touches →
  e_targetTouches event = Some targetTouches →
  length touches = length targetTouches →
  e_changedTouches event = None ∨ e_changedTouches event = Some [] →
  updateInputs normalizeEvent st event = (Normal true, st).
Proof.
  intros Htouches Htarget Hlen Hchanged.
  rewrite (updateInputs_match normalizeEvent st event touches targetTouches
             Htouches Htarget Hlen).
  by destruct Hchanged as [-> | ->].
Qed.

Lemma X18_no_changed_touch_no_effect_witness :
  let start := touchEvent "touchstart" [0%Z] [0%Z] [0%Z] in
  let st := snd (updateInputs normalizeEvent_dom initialState start) in
  let event := mkEvent "touchstart" (Some [touchAt 0%Z]) (Some [touchAt 0%Z])
                 None in
  length (inputs st) = 1
  ∧ updateInputs normalizeEvent_dom st event = (Normal true, st).
Proof.
  intros start st event. split; [reflexivity|].
  apply (X18_no_changed_touch_no_effect normalizeEvent_dom st event
           [touchAt 0%Z] [touchAt 0%Z]); try reflexivity.
  by left.
Defined.

(** * getGestureType *)

Section GestureTypeFacts.

Variable getType : gref → JsVal.

Lemma indexOf_from_sign (keys : list string) (s : string) : ∀ from : Z,
  (0 ≤ from)%Z →
  (s ∈ keys → (from ≤ indexOf_from keys s from)%Z)
  ∧ (s ∉ keys → indexOf_from keys s from = (-1)%Z).
Proof.
  induction keys as [|k keys IH]; intros from Hfrom.
  - split; [by intros ?%elem_of_nil | reflexivity].
  - simpl. destruct (String.eqb_spec k s) as [->|Hne].
    + split; [lia|]. intros Hnot. destruct Hnot. left.
    + destruct (IH (from + 1)%Z ltac:(lia)) as [Hin Hout]. split.
      * intros [?|Hs]%elem_of_cons; [congruence|].
        specialize (Hin Hs). lia.
      * intros Hnot. apply Hout. intros Hs. apply Hnot. by right.
Qed.

Lemma indexOf_found (keys : list string) (s : string) :
  (-1 <? indexOf keys s)%Z = true ↔ s ∈ keys.
Proof.
  unfold indexOf.
  destruct (indexOf_from_sign keys s 0 ltac:(lia)) as [Hin Hout].
  rewrite Z.ltb_lt. split.
  - intros Hpos. destruct (decide (s ∈ keys)) as [|Hnot]; [done|].
    rewrite (Hout Hnot) in Hpos. lia.
  - intros Hs. specialize (Hin Hs). lia.
Qed.

Lemma assoc_keys {A} (name : string) (l : list (string * A)) :
  name ∈ fst <$> l ↔ is_Some (assoc name l).
Proof.
  induction l as [|[k a] l IH].
  - split; [by intros ?%elem_of_nil | by intros [? ?]].
  - rewrite fmap_cons, elem_of_cons. simpl.
    destruct (String.eqb_spec name k) as [->|Hne].
    + split; [by eexists | by left].
    + rewrite <- IH. split; [by intros [?|?] | by right].
Qed.

Lemma getGestureType_name (name : string) :
  getGestureType getType (JString name)
  = if decide (name ∈ registeredGestures_keys) then JString name else JNull.
Proof.
  unfold getGestureType.
  destruct (-1 <? indexOf registeredGestures_keys name)%Z eqn:Hidx;
    case_decide as Hin; try reflexivity.
  - by apply indexOf_found in Hidx.
  - apply indexOf_found in Hin. congruence.
Qed.

End GestureTypeFacts.

(** X19: for a string, [getGestureType] returns the string itself when it
    is one of the six registered names and [null] for every other string,
    names inherited from [Object.prototype] included; it is therefore
    non-null exactly for the names with which [addBinding] creates a
    Binding. A value that is neither a string nor a Gesture instance gives
    [null]. *)
Theorem X19_getGestureType_on_names
    (getType : gref → JsVal) (st : State) (e : Element) (name : string)
    (h : Handler) (cap once : bool) (v : JsVal) :
  getGestureType getType (JString name)
  = (if decide (name ∈ registeredGestures_keys) then JString name else JNull)
  ∧ (getGestureType getType (JString name) ≠ JNull
     ↔ ∃ b, fst (addBinding st e (JString name) h cap once) = RetBinding b)
  ∧ getGestureType getType (JString "toString") = JNull
  ∧ (if typeof_is_string v || instanceof_Gesture v
     then True else getGestureType getType v = JNull).
Proof.
  split; [apply getGestureType_name|]. split; [|split].
  - rewrite getGestureType_name. unfold registeredGestures_keys.
    case_decide as Hin.
    + split; [|discriminate]. intros _.
      apply assoc_keys in Hin as [g Hg].
      exists (mkBinding e g h cap once).
      unfold addBinding, registeredGestures_get. by rewrite Hg.
    + split; [done|]. intros [b Hb].
      assert (Hown : assoc name registeredGestures_own = None).
      { destruct (assoc name registeredGestures_own) eqn:Hown; [|done].
        destruct Hin. apply assoc_keys. by eexists. }
      rewrite (addBinding_unknown_name st e name h cap once Hown) in Hb.
      destruct (assoc name object_prototype); discriminate.
  - reflexivity.
  - destruct v; reflexivity || exact I.
Qed.

(** * When a start batch is accepted *)

Section StartBatch.

Variable normalizeEvent : string → Phase.

Lemma inputs_at_None (l : list Input) (id : Z) :
  inputs_at l id = None ↔ (id < 0 ∨ Z.of_nat (length l) ≤ id)%Z.
Proof.
  unfold inputs_at. destruct (0 <=? id)%Z eqn:Hsign.
  - apply Z.leb_le in Hsign. rewrite lookup_ge_None. lia.
  - apply Z.leb_gt in Hsign. split; [lia | done].
Qed.

Lemma changedLoop_start_accepts (event : Event) (changed : list Touch) :
  is_start normalizeEvent event = true →
  ∀ st : State,
    fst (changedLoop normalizeEvent event changed st) = None
    ↔ ∀ (k : nat) (t : Touch),
        changed !! k = Some t →
        (t_identifier t < 0
         ∨ Z.of_nat (length (inputs st) + k) ≤ t_identifier t)%Z.
Proof.
  intros Hstart. induction changed as [|t rest IH]; intros st.
  - split; [by intros _ k t' ? | done].
  - simpl. rewrite Hstart.
    destruct (inputs_at (inputs st) (t_identifier t)) as [i|] eqn:Hat.
    + split; [discriminate|]. intros Hall.
      specialize (Hall 0 t eq_refl). rewrite Nat.add_0_r in Hall.
      apply inputs_at_None in Hall. congruence.
    + rewrite IH. simpl. rewrite length_app. simpl.
      apply inputs_at_None in Hat. split.
      * intros Hrest [|k] t' Hk.
        -- injection Hk as <-. rewrite Nat.add_0_r. exact Hat.
        -- specialize (Hrest k t' Hk). lia.
      * intros Hall k t' Hk. specialize (Hall (S k) t' Hk). lia.
Qed.

End StartBatch.

(** X20: what the duplicate test of the start branch really decides. With
    [touches] and [targetTouches] of equal length, a start event is
    answered by [true] exactly when no changed touch bears an identifier
    that is an occupied array position at its turn, that is, when the k-th
    changed touch has an identifier that is negative or at least the number
    of records before the call plus k; otherwise the answer is [false]. *)
Theorem X20_start_batch_accepted_iff
    (normalizeEvent : string → Phase) (st : State) (event : Event)
    (touches targetTouches : list Touch) :
  normalizeEvent (e_type event) = Start →
  e_touches event = Some touches →
  e_targetTouches event = Some targetTouches →
  length touches = length targetTouches →
  (fst (updateInputs normalizeEvent st event) = Normal true
   ↔ ∀ (k : nat) (t : Touch),
       default [] (e_changedTouches event) !! k = Some t →
       (t_identifier t < 0
        ∨ Z.of_nat (length (inputs st) + k) ≤ t_identifier t)%Z)
  ∧ (fst (updateInputs normalizeEvent st event) = Normal true
     ∨ fst (updateInputs normalizeEvent st event) = Normal false).
Proof.
  intros Hphase Htouches Htarget Hlen.
  rewrite (updateInputs_match normalizeEvent st event touches targetTouches
             Htouches Htarget Hlen).
  pose proof (changedLoop_start_accepts normalizeEvent event
                (default [] (e_changedTouches event))
                (is_start_true _ _ Hphase) st) as Hiff.
  pose proof (changedLoop_outcome normalizeEvent event
                (default [] (e_changedTouches event)) st) as Hout.
  destruct (changedLoop _ _ _ _) as [[b|] st']; simpl in *.
  - destruct Hout as [[[= ->] _] | [[=] _]]. split; [|by right].
    rewrite <- Hiff. split; discriminate.
  - split; [|by left]. rewrite <- Hiff. by split.
Qed.

Lemma X20_start_batch_accepted_iff_witness :
  let event := touchEvent "touchstart" [5%Z; 0%Z] [5%Z; 0%Z] [5%Z; 0%Z] in
  normalizeEvent_dom (e_type event) = Start
  ∧ inputs initialState = []
  ∧ fst (updateInputs normalizeEvent_dom initialState event) = Normal false.
Proof.
  intros event. split; [reflexivity|]. split; [reflexivity|].
  destruct (X20_start_batch_accepted_iff normalizeEvent_dom initialState event
              (touchAt <$> [5%Z; 0%Z]) (touchAt <$> [5%Z; 0%Z])
              eq_refl eq_refl eq_refl eq_refl) as [Hiff [Htrue | Hfalse]];
    [|exact Hfalse].
  pose proof (proj1 Hiff Htrue 1 (touchAt 0%Z) eq_refl) as Hsecond.
  simpl in Hsecond. lia.
Defined.

(** * Identifiers that are array positions *)

Section Positioned.

Lemma positioned_distinct (l : list Input) : positioned l → distinctActive l.
Proof.
  intros Hpos j k a b Hne Hj Hk _ _ Heq. apply Hne.
  rewrite (Hpos j a Hj), (Hpos k b Hk) in Heq. lia.
Qed.

Lemma positioned_same_identifiers (l l' : list Input) :
  positioned l → identifier <$> l' = identifier <$> l → positioned l'.
Proof.
  intros Hpos Hids k r Hk.
  assert (Hlook : (identifier <$> l) !! k = Some (identifier r))
    by (by rewrite <- Hids, list_lookup_fmap, Hk).
  rewrite list_lookup_fmap in Hlook.
  destruct (l !! k) as [r0|] eqn:Hr0; [|discriminate].
  injection Hlook as <-. by apply Hpos.
Qed.

Lemma positioned_app (l news : list Input) :
  positioned l →
  identifier <$> news = Z.of_nat <$> seq (length l) (length news) →
  positioned (l ++ news).
Proof.
  intros Hpos Hnews k r Hk.
  apply lookup_app_Some in Hk as [Hk | [Hge Hk]]; [by apply Hpos|].
  assert (Hlook : (identifier <$> news) !! (k - length l)
                  = Some (identifier r))
    by (by rewrite list_lookup_fmap, Hk).
  rewrite Hnews, list_lookup_fmap in Hlook.
  destruct (seq (length l) (length news) !! (k - length l)) as [n|] eqn:Hn;
    [|discriminate].
  apply lookup_seq in Hn as [-> _]. injection Hlook as <-. lia.
Qed.

Lemma positioned_nil : positioned [].
Proof. intros k r Hk. discriminate. Qed.

End Positioned.

(** X21: the discipline under which identifiers and positions agree is kept
    by the touch path. If every record sits at the position equal to its
    identifier and, for a start event, the changed touches bear the next
    free positions in order, then after [updateInputs] every record still
    sits at the position equal to its identifier, and no two records share
    an identifier. *)
Theorem X21_positions_kept
    (normalizeEvent : string → Phase) (st : State) (event : Event) :
  positioned (inputs st) →
  is_Some (e_touches event) →
  (normalizeEvent (e_type event) = Start →
   t_identifier <$> default [] (e_changedTouches event)
   = Z.of_nat <$> seq (length (inputs st))
                      (length (default [] (e_changedTouches event)))) →
  positioned (inputs (snd (updateInputs normalizeEvent st event)))
  ∧ distinctActive (inputs (snd (updateInputs normalizeEvent st event))).
Proof.
  intros Hpos [touches Htouches] Hcompact.
  assert (Hkept : positioned
                    (inputs (snd (updateInputs normalizeEvent st event))));
    [|split; [exact Hkept | by apply positioned_distinct]].
  unfold updateInputs. rewrite Htouches.
  destruct (e_targetTouches event) as [targetTouches|]; [|exact Hpos].
  destruct (negb _); [apply positioned_nil|].
  set (changed := default [] (e_changedTouches event)) in *.
  pose proof (changedLoop_outcome normalizeEvent event changed st) as Hout.
  destruct (decide (normalizeEvent (e_type event) = Start)) as [Hphase|Hphase].
  - pose proof (changedLoop_start_appends normalizeEvent event changed
                  (is_start_true _ _ Hphase) st) as Happ.
    destruct (changedLoop _ _ _ _) as [[b|] st']; simpl in *.
    + destruct Hout as [[_ ->] | [[=] _]]. apply positioned_nil.
    + rewrite (Happ eq_refl). apply positioned_app; [exact Hpos|].
      rewrite <- list_fmap_compose, length_fmap.
      exact (Hcompact Hphase).
  - destruct (changedLoop_not_start normalizeEvent event changed
                (is_start_false _ _ Hphase) st) as (l' & -> & Hids & _).
    simpl. by apply (positioned_same_identifiers (inputs st)).
Qed.

Lemma X21_positions_kept_witness :
  let start := touchEvent "touchstart" [0%Z; 1%Z] [0%Z; 1%Z] [0%Z; 1%Z] in
  let st := snd (updateInputs normalizeEvent_dom initialState start) in
  let third := touchEvent "touchstart" [0%Z; 1%Z; 2%Z] [0%Z; 1%Z; 2%Z] [2%Z] in
  positioned (inputs st)
  ∧ identifier <$> inputs (snd (updateInputs normalizeEvent_dom st third))
    = [0%Z; 1%Z; 2%Z]
  ∧ positioned (inputs (snd (updateInputs normalizeEvent_dom st third))).
Proof.
  intros start st third.
  assert (Hpos : positioned (inputs st)).
  { intros k r. destruct k as [|[|k]]; simpl; intros [= <-]; reflexivity. }
  split; [exact Hpos|]. split; [reflexivity|].
  apply (X21_positions_kept normalizeEvent_dom st third Hpos).
  - by eexists.
  - intros _. reflexivity.
Defined.
